(** * Call spacing of [ExampleInputProcessor]

    A shallow embedding of
    [src/mastra/processors/example-input.processors.ts]: the module-level
    cursor [nextAvailableTime], the class [ExampleInputProcessor]
    (constructor, [processInput], [getJitter]) and
    [resetRateLimitTimestamp], followed by the properties of the spacing
    queue.

    Conventions of the embedding.
    - Millisecond quantities (timestamps, [delayMs], [jitterMs]) are
      integers [Z]; the value of [Math.random()] is a rational [Q].
      Rounding, [NaN] and the infinities of IEEE doubles are outside the
      model.
    - What the runtime hands to one call, the reading of [Date.now()] and
      the draw of [Math.random()], is an explicit argument, [Host].
    - The module variable is threaded by a small state monad, [Script].
    - An [async] method runs without interruption up to its first
      [await]; the timer a call awaits is reported in its [Activation],
      together with the [const]s of its body. *)

From Stdlib Require Import String ZArith QArith Qround List Bool Lia.
Import ListNotations.

Local Open Scope Z_scope.

(** ** JavaScript operators used by the source *)

Module JS.

(** [a ?? b]: [b] when [a] is [undefined] or [null]. *)
Definition nullish {A : Type} (a : option A) (b : A) : A :=
  match a with
  | Some v => v
  | None => b
  end.

Definition Math_max (a b : Z) : Z := Z.max a b.

Definition Math_floor (x : Q) : Z := Qfloor x.

(** How a call completes: it returns, or it throws. *)
Inductive Completion (A : Type) : Type :=
| Normal (value : A)
| Throw (error : string).

Arguments Normal {A} value.
Arguments Throw {A} error.

Definition rejected {A : Type} (c : Completion A) : Prop :=
  match c with
  | Throw _ => True
  | Normal _ => False
  end.

End JS.

Notation "a ?? b" := (JS.nullish a b) (at level 45, left associativity).

(** ** The runtime seen by one call *)

Record Host : Type := mkHost {
  Date_now : Z;
  Math_random : Q
}.

(** [Math.random()] returns a number in [0, 1). *)
Definition Math_random_ok (host : Host) : Prop :=
  (0 <= Math_random host)%Q /\ (Math_random host < 1)%Q.

(** [Date.now()] counts the milliseconds elapsed since the epoch. *)
Definition Date_now_ok (host : Host) : Prop := 0 <= Date_now host.

(** ** Module state: [let nextAvailableTime = 0] *)

Record ModuleState : Type := mkModuleState {
  nextAvailableTime : Z
}.

Definition initial : ModuleState := {| nextAvailableTime := 0 |}.

Definition Script (A : Type) : Type := ModuleState -> A * ModuleState.

Definition ret {A : Type} (a : A) : Script A := fun s => (a, s).

Definition bind {A B : Type} (c : Script A) (k : A -> Script B) : Script B :=
  fun s => let (a, s') := c s in k a s'.

Definition read_nextAvailableTime : Script Z :=
  fun s => (nextAvailableTime s, s).

Definition write_nextAvailableTime (t : Z) : Script unit :=
  fun _ => (tt, {| nextAvailableTime := t |}).

Definition eval {A : Type} (c : Script A) (s : ModuleState) : A := fst (c s).

Definition exec {A : Type} (c : Script A) (s : ModuleState) : ModuleState :=
  snd (c s).

Declare Scope script_scope.
Delimit Scope script_scope with script.
Notation "x <- c ;; k" := (bind c (fun x => k))
  (at level 61, c at next level, right associativity) : script_scope.
Notation "c ;; k" := (bind c (fun _ => k))
  (at level 61, right associativity) : script_scope.
Local Open Scope script_scope.

Fixpoint forEach {A B : Type} (f : A -> Script B) (l : list A)
  : Script (list B) :=
  match l with
  | [] => ret []
  | x :: rest =>
      y <- f x ;;
      ys <- forEach f rest ;;
      ret (y :: ys)
  end.

(** ** [ExampleInputProcessorOptions] and the class *)

Record ExampleInputProcessorOptions : Type := mkOptions {
  opt_delayMs : option Z;
  opt_jitterMs : option Z
}.

(** The literal [{}]. *)
Definition no_options : ExampleInputProcessorOptions :=
  {| opt_delayMs := None; opt_jitterMs := None |}.

Record ExampleInputProcessor : Type := mkProcessor {
  id : string;
  name : string;
  delayMs : Z;
  jitterMs : Z
}.

(** [constructor(options = {})]: the parameter default applies when the
    argument is [undefined]. *)
Definition constructor (options : option ExampleInputProcessorOptions)
  : JS.Completion ExampleInputProcessor :=
  let options := options ?? no_options in
  JS.Normal {| id := "example-input";
               name := "ExampleInputProcessor";
               delayMs := opt_delayMs options ?? 500;
               jitterMs := opt_jitterMs options ?? 1000 |}.

(** [getJitter()] *)
Definition getJitter (this : ExampleInputProcessor) (host : Host) : Z :=
  if jitterMs this <=? 0 then 0
  else JS.Math_floor (Math_random host * inject_Z (jitterMs this)).

(** [sleep(ms)]: the timer the caller awaits. *)
Definition sleep (ms : Z) : option Z := Some ms.

Section Messages.

(** [MastraDBMessage] is declared by the framework; the processor never
    looks inside a message. *)
Variable MastraDBMessage : Type.

(** [ProcessInputArgs], of which the method takes [messages]. *)
Record ProcessInputArgs : Type := mkArgs {
  messages : list MastraDBMessage
}.

(** One run of [processInput]: the [const]s of its body, the timer it
    awaited ([None] when it did not suspend) and the value its promise
    resolves to. *)
Record Activation : Type := mkActivation {
  now : Z;
  effectiveDelay : Z;
  myStartTime : Z;
  waitTime : Z;
  awaited : option Z;
  resolved : list MastraDBMessage
}.

Definition processInput (this : ExampleInputProcessor)
    (args : ProcessInputArgs) (host : Host) : Script Activation :=
  let now := Date_now host in
  let effectiveDelay := delayMs this + getJitter this host in
  nextAvailableTime <- read_nextAvailableTime ;;
  let myStartTime := JS.Math_max now nextAvailableTime in
  write_nextAvailableTime (myStartTime + effectiveDelay) ;;
  let waitTime := myStartTime - now in
  ret {| now := now;
         effectiveDelay := effectiveDelay;
         myStartTime := myStartTime;
         waitTime := waitTime;
         awaited := if 0 <? waitTime then sleep waitTime else None;
         resolved := messages args |}.

(** A call as it reaches the processor: its argument and the runtime
    values it will read. *)
Record Call : Type := mkCall {
  call_args : ProcessInputArgs;
  call_host : Host
}.

(** Calls whose synchronous parts run one after the other, in the order
    of the list. *)
Definition serve (this : ExampleInputProcessor) (calls : list Call)
  : Script (list Activation) :=
  forEach (fun c => processInput this (call_args c) (call_host c)) calls.

(** The module state in which the call of index [i] of [calls] runs. *)
Definition stateBefore (this : ExampleInputProcessor) (calls : list Call)
    (i : nat) (s : ModuleState) : ModuleState :=
  exec (serve this (firstn i calls)) s.

(** The time a call spends suspended before it resolves. *)
Definition waitDurationMs (a : Activation) : Z :=
  match awaited a with
  | Some ms => ms
  | None => 0
  end.

End Messages.

Arguments mkArgs {MastraDBMessage} messages.
Arguments messages {MastraDBMessage} _.
Arguments mkActivation {MastraDBMessage} _ _ _ _ _ _.
Arguments now {MastraDBMessage} _.
Arguments effectiveDelay {MastraDBMessage} _.
Arguments myStartTime {MastraDBMessage} _.
Arguments waitTime {MastraDBMessage} _.
Arguments awaited {MastraDBMessage} _.
Arguments resolved {MastraDBMessage} _.
Arguments processInput {MastraDBMessage} this args host.
Arguments mkCall {MastraDBMessage} _ _.
Arguments call_args {MastraDBMessage} _.
Arguments call_host {MastraDBMessage} _.
Arguments serve {MastraDBMessage} this calls.
Arguments stateBefore {MastraDBMessage} this calls i s.
Arguments waitDurationMs {MastraDBMessage} a.

(** [resetRateLimitTimestamp()] *)
Definition resetRateLimitTimestamp : Script unit :=
  write_nextAvailableTime 0.

(** ** Sample instances and calls *)

(** An instance as the constructor builds it from [{ delayMs, jitterMs }]. *)
Definition configured (d j : Z) : ExampleInputProcessor :=
  {| id := "example-input"; name := "ExampleInputProcessor";
     delayMs := d; jitterMs := j |}.

Definition text (t : string) : @ProcessInputArgs string := mkArgs [t].

Definition arrival (t : string) (time : Z) (draw : Q) : @Call string :=
  mkCall (text t) (mkHost time draw).

(** Three requests reaching the processor at the same instant. *)
Definition burst (t0 : Z) : list (@Call string) :=
  [arrival "A" t0 (1#2); arrival "B" t0 (1#3); arrival "C" t0 (9#10)].

(** ** Calls through several instances, resumption, reset between calls *)

Section Shared.

Variable MastraDBMessage : Type.

(** [nextAvailableTime] belongs to the module, not to the instance: calls
    made on different instances, each paired here with its instance, run
    against the same cursor. *)
Definition serveAcross
    (calls : list (ExampleInputProcessor * Call MastraDBMessage))
  : Script (list (Activation MastraDBMessage)) :=
  forEach (fun ic => processInput (fst ic) (call_args (snd ic))
                       (call_host (snd ic))) calls.

(** The instant at which the promise of a call resolves: the reading of
    the clock at the call plus the delay of the timer it awaits. *)
Definition resumesAt (a : Activation MastraDBMessage) : Z :=
  now a + waitDurationMs a.

(** A call, then [resetRateLimitTimestamp()], then a second call. *)
Definition resetBetween (this : ExampleInputProcessor)
    (A B : ProcessInputArgs MastraDBMessage) (hostA hostB : Host)
  : Script (Activation MastraDBMessage * Activation MastraDBMessage) :=
  a <- processInput this A hostA ;;
  resetRateLimitTimestamp ;;
  b <- processInput this B hostB ;;
  ret (a, b).

End Shared.

Arguments serveAcross {MastraDBMessage} calls.
Arguments resumesAt {MastraDBMessage} a.
Arguments resetBetween {MastraDBMessage} this A B hostA hostB.

(** ** The calls a run of [processInput] makes

    The same method once more, now with every call it makes out of its own
    body kept as a call: [Date.now()], [Math.random()], the read and the
    write of the module variable, and the timer of [sleep]. [console.log],
    the output the workflow steps of the repository write, is among the
    services so that a program that writes output can be told from one
    that does not. *)

Module Effects.

Inductive Service : Type -> Type :=
| Date_now_ : Service Z
| Math_random_ : Service Q
| read_nextAvailableTime_ : Service Z
| write_nextAvailableTime_ (t : Z) : Service unit
| setTimeout_ (ms : Z) : Service unit
| console_log_ (line : string) : Service unit.

(** A body of code: it returns, or it calls a service and goes on with the
    answer. *)
Inductive Program (A : Type) : Type :=
| Return (a : A)
| Call {X : Type} (service : Service X) (continue : X -> Program A).

Arguments Return {A} a.
Arguments Call {A X} service continue.

Fixpoint andThen {A B : Type} (p : Program A) (k : A -> Program B)
  : Program B :=
  match p with
  | Return a => k a
  | Call service continue => Call service (fun x => andThen (continue x) k)
  end.

Definition call {X : Type} (service : Service X) : Program X :=
  Call service Return.

(** What a run has done, in order. *)
Inductive Performed : Type :=
| Date_now_called (result : Z)
| Math_random_called (result : Q)
| nextAvailableTime_read (value : Z)
| nextAvailableTime_written (value : Z)
| setTimeout_called (ms : Z)
| console_log_called (line : string).



Definition result {A : Type} (r : A * ModuleState * list Performed) : A :=
  fst (fst r).






(** [getJitter()] *)
Definition getJitter (this : ExampleInputProcessor) : Program Z :=
  if jitterMs this <=? 0 then Return 0
  else
    andThen (call Math_random_) (fun random =>
    Return (JS.Math_floor (random * inject_Z (jitterMs this)))).

(** [sleep(ms)], awaited. *)
Definition sleep (ms : Z) : Program unit := call (setTimeout_ ms).

(** [processInput({ messages })] *)
Definition processInput {MastraDBMessage : Type}
    (this : ExampleInputProcessor)
    (args : ProcessInputArgs MastraDBMessage)
  : Program (Activation MastraDBMessage) :=
  andThen (call Date_now_) (fun now =>
  andThen (getJitter this) (fun jitter =>
  let effectiveDelay := delayMs this + jitter in
  andThen (call read_nextAvailableTime_) (fun nextAvailableTime =>
  let myStartTime := JS.Math_max now nextAvailableTime in
  andThen (call (write_nextAvailableTime_ (myStartTime + effectiveDelay)))
    (fun _ =>
  let waitTime := myStartTime - now in
  andThen (if 0 <? waitTime then sleep waitTime else Return tt) (fun _ =>
  Return (mkActivation now effectiveDelay myStartTime waitTime
            (if 0 <? waitTime then Some waitTime else None)
            (messages args))))))).

End Effects.

(** ** The steps of the nested workflow

    The [execute] functions of [workflows/nested-workflow-example]: what
    each returns as a function of its [inputData]. The line a step writes
    with [console.log] is not part of the value and is left out. *)

Module Workflow.

(** A JavaScript string is the sequence of its UTF-16 code units. *)
Definition jsstring : Type := list N.

(** A literal made of ASCII characters. *)
Definition lit (s : string) : jsstring :=
  map Ascii.N_of_ascii (list_ascii_of_string s).

(** The characters of [\s] in a regular expression, which are also those
    [trim()] removes: WhiteSpace and LineTerminator. *)
Definition isWhiteSpace (u : N) : bool :=
  ((0x0009 <=? u) && (u <=? 0x000D)
   || (u =? 0x0020) || (u =? 0x00A0) || (u =? 0x1680)
   || (0x2000 <=? u) && (u <=? 0x200A)
   || (u =? 0x2028) || (u =? 0x2029) || (u =? 0x202F) || (u =? 0x205F)
   || (u =? 0x3000) || (u =? 0xFEFF))%N.

(** The characters of [\w]: [A-Za-z0-9_]. *)
Definition isWord (u : N) : bool :=
  ((0x30 <=? u) && (u <=? 0x39) || (0x41 <=? u) && (u <=? 0x5A)
   || (u =? 0x5F) || (0x61 <=? u) && (u <=? 0x7A))%N.

Fixpoint trimStart (s : jsstring) : jsstring :=
  match s with
  | [] => []
  | u :: rest => if isWhiteSpace u then trimStart rest else s
  end.

Definition trimEnd (s : jsstring) : jsstring := rev (trimStart (rev s)).

(** [s.trim()] *)
Definition trim (s : jsstring) : jsstring := trimEnd (trimStart s).

(** [s.substring(from, to)]: both indices are clamped to the length and
    the smaller one comes first. *)
Definition substring (s : jsstring) (from to : nat) : jsstring :=
  let from := Nat.min from (length s) in
  let to := Nat.min to (length s) in
  firstn (Nat.max from to - Nat.min from to) (skipn (Nat.min from to) s).

(** [s.split(/\s+/)] from a position of [s]; [inRun] tells that the
    characters just before belong to a separator already cut. The head of
    the result is the piece being read. *)
Fixpoint splitFrom (inRun : bool) (s : jsstring) : list jsstring :=
  match s with
  | [] => [[]]
  | u :: rest =>
      if isWhiteSpace u then
        if inRun then splitFrom true rest else [] :: splitFrom true rest
      else
        match splitFrom false rest with
        | piece :: pieces => (u :: piece) :: pieces
        | [] => [[u]]
        end
  end.

(** [s.split(/\s+/)]: the pieces between maximal runs of white space; a
    run at either end leaves an empty piece there. *)
Definition splitWhiteSpace (s : jsstring) : list jsstring :=
  splitFrom false s.

(** [s.split(sep)] for a separator of one code unit. *)
Fixpoint splitOn (sep : N) (s : jsstring) : list jsstring :=
  match s with
  | [] => [[]]
  | u :: rest =>
      if (u =? sep)%N then [] :: splitOn sep rest
      else
        match splitOn sep rest with
        | piece :: pieces => (u :: piece) :: pieces
        | [] => [[u]]
        end
  end.

(** [s.replace(/-/g, ' ')] *)
Definition dashesToSpaces (s : jsstring) : jsstring :=
  map (fun u => if (u =? 0x2D)%N then 0x20%N else u) s.

(** [s.replace(/\.\w+$/, '')]: the leftmost dot followed, up to the end of
    the string, by one or more word characters is removed with them. *)
Fixpoint dropExtension (s : jsstring) : jsstring :=
  match s with
  | [] => []
  | u :: rest =>
      if (u =? 0x2E)%N && negb (Nat.eqb (length rest) 0)
         && forallb isWord rest
      then []
      else u :: dropExtension rest
  end.

(** [a || b] on strings: the empty string is falsy, and so is [undefined]. *)
Definition orElse (a : option jsstring) (b : jsstring) : jsstring :=
  match a with
  | Some (u :: rest) => u :: rest
  | Some [] | None => b
  end.

(** How [execute] completes: with its output, or throwing an [Error]. *)
Inductive Step (A : Type) : Type :=
| Done (output : A)
| Failed (message : jsstring).

Arguments Done {A} output.
Arguments Failed {A} message.

Inductive Sentiment : Type := positive | negative | neutral.

(** [inputData.content.split(/\s+/).length] of [analyzeContentStep]. *)
Definition wordCount (content : jsstring) : nat :=
  length (splitWhiteSpace content).

Module Analysis.
Record t : Type := make {
  content : jsstring;
  title : jsstring;
  sentiment : Sentiment;
  keywords : list jsstring;
  wordCount : Z
}.
End Analysis.

Module Enriched.
Record t : Type := make {
  title : jsstring;
  summary : jsstring;
  sentiment : Sentiment;
  keywords : list jsstring;
  wordCount : Z;
  readingTimeMinutes : Z
}.
End Enriched.

Definition Math_ceil (x : Q) : Z := Qceiling x.

(** [execute] of [summarizeContentStep]. *)
Definition summarizeContentStep (inputData : Analysis.t) : Enriched.t :=
  let summary :=
    if (150 <? length (Analysis.content inputData))%nat
    then trim (substring (Analysis.content inputData) 0 150) ++ lit "..."
    else Analysis.content inputData in
  let readingTimeMinutes :=
    Math_ceil (inject_Z (Analysis.wordCount inputData) / 200) in
  {| Enriched.title := Analysis.title inputData;
     Enriched.summary := summary;
     Enriched.sentiment := Analysis.sentiment inputData;
     Enriched.keywords := Analysis.keywords inputData;
     Enriched.wordCount := Analysis.wordCount inputData;
     Enriched.readingTimeMinutes := readingTimeMinutes |}.

Module Fetched.
Record t : Type := make {
  url : jsstring;
  rawContent : jsstring;
  fetchedAt : jsstring
}.
End Fetched.

Module Validated.
Record t : Type := make {
  isValid : bool;
  content : jsstring;
  title : jsstring;
  source : jsstring;
  processedAt : jsstring
}.
End Validated.

Module Prepared.
Record t : Type := make {
  content : jsstring;
  title : jsstring
}.
End Prepared.

(** The [const title] of [validateDocumentStep]: the last part of the URL,
    dashes turned into spaces and the extension dropped, or the fixed
    title when nothing is left. *)
Definition titleOf (url : jsstring) : jsstring :=
  let urlParts := splitOn 0x2F url in
  orElse
    (option_map (fun part => dropExtension (dashesToSpaces part))
       (nth_error urlParts (length urlParts - 1)))
    (lit "Untitled Document").

Section Validate.

(** [toUpperCase()] follows the Unicode tables of the runtime, and
    [new Date().toISOString()] its clock. *)
Variable toUpperCase : jsstring -> jsstring.
Variable toISOString : jsstring.

(** [execute] of [validateDocumentStep]. *)
Definition validateDocumentStep (inputData : Fetched.t) : Validated.t :=
  let isValid := (50 <? length (Fetched.rawContent inputData))%nat in
  let title := titleOf (Fetched.url inputData) in
  {| Validated.isValid := isValid;
     Validated.content := trim (Fetched.rawContent inputData);
     Validated.title := toUpperCase (firstn 1 title) ++ skipn 1 title;
     Validated.source := Fetched.url inputData;
     Validated.processedAt := toISOString |}.

End Validate.

(** [execute] of [prepareForEnrichmentStep]. *)
Definition prepareForEnrichmentStep (inputData : Validated.t)
  : Step Prepared.t :=
  if negb (Validated.isValid inputData) then
    Failed (lit "Document " ++ [0x22%N] ++ Validated.title inputData
            ++ [0x22%N] ++ lit " failed validation")
  else
    Done {| Prepared.content := Validated.content inputData;
            Prepared.title := Validated.title inputData |}.

(** The pieces of a split that are not empty. *)
Definition nonEmpty (pieces : list jsstring) : list jsstring :=
  filter (fun piece => negb (Nat.eqb (length piece) 0)) pieces.

(** A string without its white space. *)
Definition withoutWhiteSpace (s : jsstring) : jsstring :=
  filter (fun u => negb (isWhiteSpace u)) s.

(** The first code unit is white space. *)
Definition startsWhite (s : jsstring) : bool :=
  match s with
  | [] => false
  | u :: _ => isWhiteSpace u
  end.

(** The last code unit is white space. *)
Fixpoint endsWhite (s : jsstring) : bool :=
  match s with
  | [] => false
  | u :: rest =>
      match rest with
      | [] => isWhiteSpace u
      | _ :: _ => endsWhite rest
      end
  end.

(** Pieces put together again with a separator after each but the
    last. *)
Fixpoint interleave (pieces runs : list jsstring) : jsstring :=
  match pieces with
  | [] => []
  | piece :: pieces' =>
      piece ++ match runs with
               | [] => []
               | run :: runs' => run ++ interleave pieces' runs'
               end
  end.

(** Every piece but the last one is not empty. *)
Fixpoint innerNonEmpty (pieces : list jsstring) : Prop :=
  match pieces with
  | [] => True
  | piece :: rest =>
      match rest with
      | [] => True
      | _ :: _ => piece <> [] /\ innerNonEmpty rest
      end
  end.

End Workflow.

(** ** Equations of the embedding *)

Section Equations.

Context {MastraDBMessage : Type}.
Implicit Types (this : ExampleInputProcessor) (host : Host)
  (args : @ProcessInputArgs MastraDBMessage) (s : ModuleState)
  (calls : list (@Call MastraDBMessage)).

Lemma processInput_eval this args host s :
  eval (processInput this args host) s =
  let start := Z.max (Date_now host) (nextAvailableTime s) in
  {| now := Date_now host;
     effectiveDelay := delayMs this + getJitter this host;
     myStartTime := start;
     waitTime := start - Date_now host;
     awaited := if 0 <? start - Date_now host
                then Some (start - Date_now host) else None;
     resolved := messages args |}.
Proof. reflexivity. Qed.

Lemma processInput_exec this args host s :
  nextAvailableTime (exec (processInput this args host) s) =
  Z.max (Date_now host) (nextAvailableTime s)
  + (delayMs this + getJitter this host).
Proof. reflexivity. Qed.

(** Runs the first call of a sequence and names what the rest returns. *)
Ltac run_head c calls s :=
  unfold eval, exec, serve; cbn [forEach]; unfold bind at 1;
  destruct (processInput _ (call_args c) (call_host c) s) as [? s1];
  unfold bind; cbn [fst snd];
  destruct (forEach _ calls s1); reflexivity.

Lemma serve_nil this s : @serve MastraDBMessage this [] s = ([], s).
Proof. reflexivity. Qed.

Lemma serve_cons_eval this c calls s :
  eval (serve this (c :: calls)) s =
  eval (processInput this (call_args c) (call_host c)) s
  :: eval (serve this calls)
       (exec (processInput this (call_args c) (call_host c)) s).
Proof. run_head c calls s. Qed.

Lemma serve_cons_exec this c calls s :
  exec (serve this (c :: calls)) s =
  exec (serve this calls)
    (exec (processInput this (call_args c) (call_host c)) s).
Proof. run_head c calls s. Qed.

Lemma serve_length this calls :
  forall s, length (eval (serve this calls) s) = length calls.
Proof.
  induction calls as [|c calls IH]; intro s.
  - reflexivity.
  - rewrite serve_cons_eval. cbn [length]. now rewrite IH.
Qed.

End Equations.

(** The burst of the class comment, with [delayMs: 2000] and no jitter. *)
Example burst_without_jitter :
  eval (serve (configured 2000 0) (burst 100)) initial
  = [mkActivation 100 2000 100 0 None ["A"%string];
     mkActivation 100 2000 2100 2000 (Some 2000) ["B"%string];
     mkActivation 100 2000 4100 4000 (Some 4000) ["C"%string]].
Proof. reflexivity. Qed.

(** The same burst under the constructed defaults, 500 and 1000. *)
Example burst_with_defaults :
  map myStartTime (eval (serve (configured 500 1000) (burst 100)) initial)
  = [100; 1100; 1933] /\
  nextAvailableTime (exec (serve (configured 500 1000) (burst 100)) initial)
  = 3333.
Proof. split; reflexivity. Qed.

(** ** Jitter *)

(** Checks a literal draw against the range of [Math.random()]. *)
Ltac draw_in_range := split; cbn; unfold Qle, Qlt; cbn; lia.

Lemma getJitter_disabled this host :
  jitterMs this <= 0 -> getJitter this host = 0.
Proof.
  intro H. unfold getJitter.
  destruct (Z.leb_spec (jitterMs this) 0) as [_|Hgt]; [reflexivity | lia].
Qed.

Lemma getJitter_nonneg this host :
  Math_random_ok host -> 0 <= getJitter this host.
Proof.
  intros [Hlo _]. unfold getJitter, JS.Math_floor.
  destruct (Z.leb_spec (jitterMs this) 0) as [_|Hgt]; [lia|].
  change 0 with (Qfloor 0). apply Qfloor_resp_le.
  apply Qmult_le_0_compat; [exact Hlo|].
  change 0%Q with (inject_Z 0). rewrite <- Zle_Qle. lia.
Qed.

Lemma getJitter_below this host :
  Math_random_ok host -> 0 < jitterMs this ->
  getJitter this host < jitterMs this.
Proof.
  intros [_ Hhi] Hpos. unfold getJitter, JS.Math_floor.
  destruct (Z.leb_spec (jitterMs this) 0) as [Hle|_]; [lia|].
  rewrite Zlt_Qlt.
  apply Qle_lt_trans with (Math_random host * inject_Z (jitterMs this))%Q.
  - apply Qfloor_le.
  - setoid_replace (inject_Z (jitterMs this))
      with (1 * inject_Z (jitterMs this))%Q at 2 by (symmetry; apply Qmult_1_l).
    apply Qmult_lt_compat_r; [|exact Hhi].
    change 0%Q with (inject_Z 0). rewrite <- Zlt_Qlt. exact Hpos.
Qed.

(** ** Sequences of calls *)

Section Sequences.

Context {MastraDBMessage : Type}.
Implicit Types (this : ExampleInputProcessor) (host : Host)
  (args : @ProcessInputArgs MastraDBMessage) (s : ModuleState)
  (c : @Call MastraDBMessage) (calls : list (@Call MastraDBMessage)).


Lemma stateBefore_cons this c calls i s :
  stateBefore this (c :: calls) (S i) s =
  stateBefore this calls i
    (exec (processInput this (call_args c) (call_host c)) s).
Proof. unfold stateBefore. cbn [firstn]. apply serve_cons_exec. Qed.

Lemma stateBefore_S this calls :
  forall i c s,
    nth_error calls i = Some c ->
    stateBefore this calls (S i) s =
    exec (processInput this (call_args c) (call_host c))
      (stateBefore this calls i s).
Proof.
  induction calls as [|c0 calls IH]; intros [|i] c s Hc; cbn in Hc;
    try discriminate.
  - injection Hc as ->. reflexivity.
  - rewrite !stateBefore_cons. now apply IH.
Qed.

Lemma serve_nth this calls :
  forall i c s,
    nth_error calls i = Some c ->
    nth_error (eval (serve this calls) s) i =
    Some (eval (processInput this (call_args c) (call_host c))
            (stateBefore this calls i s)).
Proof.
  induction calls as [|c0 calls IH]; intros [|i] c s Hc; cbn in Hc;
    try discriminate; rewrite serve_cons_eval; cbn [nth_error].
  - injection Hc as ->. reflexivity.
  - rewrite stateBefore_cons. now apply IH.
Qed.

Lemma serve_nth_inv this calls i a s :
  nth_error (eval (serve this calls) s) i = Some a ->
  exists c,
    nth_error calls i = Some c /\
    a = eval (processInput this (call_args c) (call_host c))
          (stateBefore this calls i s).
Proof.
  intro Ha.
  destruct (nth_error calls i) as [c|] eqn:Hc.
  - exists c. split; [reflexivity|].
    rewrite (serve_nth this calls i c s Hc) in Ha. now injection Ha.
  - apply nth_error_None in Hc. rewrite <- (serve_length this calls s) in Hc.
    apply nth_error_None in Hc. congruence.
Qed.


Lemma processInput_advances this args host s :
  Math_random_ok host -> 0 <= delayMs this ->
  nextAvailableTime s <=
  nextAvailableTime (exec (processInput this args host) s).
Proof.
  intros Hr Hd. rewrite processInput_exec.
  pose proof (getJitter_nonneg this host Hr). lia.
Qed.

Lemma serve_advances this calls :
  Forall (fun c => Math_random_ok (call_host c)) calls ->
  0 <= delayMs this ->
  forall s, nextAvailableTime s <= nextAvailableTime (exec (serve this calls) s).
Proof.
  intros Hr Hd. induction Hr as [|c calls Hc _ IH]; intro s.
  - apply Z.le_refl.
  - rewrite serve_cons_exec.
    eapply Z.le_trans; [|apply IH]. now apply processInput_advances.
Qed.

(** With jitter disabled a call reads nothing but the clock. *)
Lemma processInput_without_jitter this args1 args2 host1 host2 s :
  jitterMs this <= 0 ->
  Date_now host1 = Date_now host2 ->
  let a1 := eval (processInput this args1 host1) s in
  let a2 := eval (processInput this args2 host2) s in
  exec (processInput this args1 host1) s
  = exec (processInput this args2 host2) s /\
  myStartTime a1 = myStartTime a2 /\
  waitTime a1 = waitTime a2 /\
  awaited a1 = awaited a2.
Proof.
  intros Hj Hnow. cbn zeta.
  unfold exec, eval, processInput, bind, read_nextAvailableTime,
    write_nextAvailableTime, ret; cbn.
  rewrite !(getJitter_disabled this) by exact Hj.
  rewrite Hnow. repeat split.
Qed.

Lemma serve_without_jitter this :
  jitterMs this <= 0 ->
  forall calls1 calls2 s,
    map (fun c => Date_now (call_host c)) calls1
    = map (fun c => Date_now (call_host c)) calls2 ->
    map waitDurationMs (eval (serve this calls1) s)
    = map waitDurationMs (eval (serve this calls2) s).
Proof.
  intro Hj.
  induction calls1 as [|c1 calls1 IH]; intros [|c2 calls2] s Hnow;
    cbn in Hnow; try discriminate; [reflexivity|].
  injection Hnow as Hhead Htail.
  rewrite !serve_cons_eval. cbn [map].
  destruct (processInput_without_jitter this (call_args c1) (call_args c2)
              (call_host c1) (call_host c2) s Hj Hhead)
    as (Hs & _ & _ & Haw).
  rewrite Hs. f_equal.
  - unfold waitDurationMs. now rewrite Haw.
  - now apply IH.
Qed.

End Sequences.

(** ** Properties of the spacing queue *)

(** C1. Spacing invariant. Calls whose synchronous reservation steps run in
    the order of the list commit start times that are at least [delayMs]
    apart: [start[i+1] >= start[i] + delayMs] for every [i]; and, for two
    consecutive calls, the second starts no earlier than the start of the
    first plus the [effectiveDelay] of the first. Every call is served. The
    jitter has to be non-negative, which the range of [Math.random()]
    gives; the sign of [delayMs] plays no part. *)
Theorem spacing_invariant (MastraDBMessage : Type)
    (this : ExampleInputProcessor) (calls : list (@Call MastraDBMessage))
    (s : ModuleState) :
  Forall (fun c => Math_random_ok (call_host c)) calls ->
  let starts := eval (serve this calls) s in
  length starts = length calls /\
  forall i a b,
    nth_error starts i = Some a ->
    nth_error starts (S i) = Some b ->
    myStartTime a + effectiveDelay a <= myStartTime b /\
    myStartTime a + delayMs this <= myStartTime b.
Proof.
  intros Hok starts. split; [apply serve_length|].
  intros i a b Ha Hb.
  apply serve_nth_inv in Ha as (ca & Hca & ->).
  apply serve_nth_inv in Hb as (cb & Hcb & ->).
  rewrite (stateBefore_S this calls i ca s Hca).
  rewrite !processInput_eval. cbn [myStartTime effectiveDelay].
  rewrite processInput_exec.
  assert (Hj : 0 <= getJitter this (call_host ca)).
  { apply getJitter_nonneg.
    rewrite Forall_forall in Hok. apply Hok.
    eapply nth_error_In; eassumption. }
  lia.
Qed.

Lemma burst_draws_ok (t0 : Z) :
  Forall (fun c => Math_random_ok (call_host c)) (burst t0).
Proof.
  unfold burst. repeat (apply Forall_cons; [draw_in_range|]). apply Forall_nil.
Qed.

Lemma spacing_invariant_witness :
  Forall (fun c => Math_random_ok (call_host c)) (burst 1000) /\
  1000 + 550 <= 1550 /\ 1000 + 500 <= 1550.
Proof.
  split; [apply burst_draws_ok|].
  apply (proj2 (spacing_invariant string (configured 500 100) (burst 1000)
                  initial (burst_draws_ok 1000))
           0%nat
           (mkActivation 1000 550 1000 0 None ["A"%string])
           (mkActivation 1000 533 1550 550 (Some 550) ["B"%string]));
    reflexivity.
Defined.

(** C2. Concrete scenario. With [delayMs = 2000] and [jitterMs = 0], three
    calls issued at the same instant [t0] and reserving in arrival order A,
    B, C against a cursor not later than [t0] start at [t0], [t0 + 2000]
    and [t0 + 4000]: they wait 0, 2000 and 4000 milliseconds. *)
Theorem three_simultaneous_calls (MastraDBMessage : Type) (t0 cursor : Z)
    (A B C : @ProcessInputArgs MastraDBMessage) (rA rB rC : Q) :
  cursor <= t0 ->
  let acts :=
    eval (serve (configured 2000 0)
            [mkCall A (mkHost t0 rA); mkCall B (mkHost t0 rB);
             mkCall C (mkHost t0 rC)])
         {| nextAvailableTime := cursor |} in
  map myStartTime acts = [t0; t0 + 2000; t0 + 4000] /\
  map waitTime acts = [0; 2000; 4000] /\
  map waitDurationMs acts = [0; 2000; 4000] /\
  map resolved acts = [messages A; messages B; messages C].
Proof.
  intros Hidle acts. subst acts.
  rewrite !serve_cons_eval, !processInput_eval. cbn [serve forEach eval ret fst].
  cbn [call_args call_host Date_now map myStartTime waitTime resolved].
  unfold waitDurationMs. cbn [awaited].
  rewrite !processInput_exec. cbn [call_host Date_now nextAvailableTime].
  rewrite !(getJitter_disabled (configured 2000 0)) by (cbn; lia).
  cbn [configured delayMs].
  replace (Z.max t0 cursor) with t0 by lia.
  replace (Z.max t0 (t0 + (2000 + 0))) with (t0 + 2000) by lia.
  replace (Z.max t0 (t0 + 2000 + (2000 + 0))) with (t0 + 4000) by lia.
  replace (t0 - t0) with 0 by lia.
  replace (t0 + 2000 - t0) with 2000 by lia.
  replace (t0 + 4000 - t0) with 4000 by lia.
  cbn. repeat split.
Qed.

Lemma three_simultaneous_calls_witness :
  900 <= 1000 /\
  map myStartTime
    (eval (serve (configured 2000 0) (burst 1000))
       {| nextAvailableTime := 900 |}) = [1000; 3000; 5000] /\
  map waitDurationMs
    (eval (serve (configured 2000 0) (burst 1000))
       {| nextAvailableTime := 900 |}) = [0; 2000; 4000].
Proof.
  assert (Hidle : 900 <= 1000) by lia.
  split; [exact Hidle|].
  pose proof (three_simultaneous_calls string 1000 900
                (text "A") (text "B") (text "C") (1#2) (1#3) (9#10) Hidle)
    as (Hstart & _ & Hwait & _).
  split; [exact Hstart | exact Hwait].
Defined.

(** C3, as stated, fails. The constructor keeps a negative [delayMs], and
    with [delayMs = -500] a call made at time 2000 against a cursor at 5000
    leaves the cursor at 4500. *)
Lemma negative_delay_rewinds_cursor :
  constructor (Some {| opt_delayMs := Some (-500); opt_jitterMs := Some 0 |})
  = JS.Normal (configured (-500) 0) /\
  nextAvailableTime
    (exec (processInput (configured (-500) 0) (text "A") (mkHost 2000 (1#2)))
       {| nextAvailableTime := 5000 |}) = 4500 /\
  ~ (nextAvailableTime {| nextAvailableTime := 5000 |} <=
     nextAvailableTime
       (exec (processInput (configured (-500) 0) (text "A")
                (mkHost 2000 (1#2)))
          {| nextAvailableTime := 5000 |})).
Proof.
  split; [reflexivity|]. split; [reflexivity|].
  cbn. lia.
Qed.

(** C3, amended. Non-decreasing cursor: on a processor whose [delayMs] is
    not negative, the cursor after a call to [processInput] is at least the
    cursor before it, and so it is after any sequence of calls; the one
    operation that rewinds it is the explicit reset, which sets it to 0. *)
Theorem cursor_non_decreasing (MastraDBMessage : Type)
    (this : ExampleInputProcessor) :
  0 <= delayMs this ->
  (forall (args : @ProcessInputArgs MastraDBMessage) host s,
      Math_random_ok host ->
      nextAvailableTime s <=
      nextAvailableTime (exec (processInput this args host) s)) /\
  (forall (calls : list (@Call MastraDBMessage)) s,
      Forall (fun c => Math_random_ok (call_host c)) calls ->
      nextAvailableTime s <= nextAvailableTime (exec (serve this calls) s)) /\
  (forall s, nextAvailableTime (exec resetRateLimitTimestamp s) = 0).
Proof.
  intro Hd. split; [|split].
  - intros args host s Hr. now apply processInput_advances.
  - intros calls s Hr. now apply serve_advances.
  - reflexivity.
Qed.

Lemma cursor_non_decreasing_witness :
  0 <= delayMs (configured 500 100) /\
  nextAvailableTime {| nextAvailableTime := 1000 |} <=
  nextAvailableTime
    (exec (serve (configured 500 100) (burst 200))
       {| nextAvailableTime := 1000 |}).
Proof.
  assert (Hd : 0 <= delayMs (configured 500 100)) by (cbn; lia).
  split; [exact Hd|].
  apply (proj1 (proj2 (cursor_non_decreasing string (configured 500 100) Hd))).
  apply burst_draws_ok.
Defined.

(** C4, as stated, fails. Construction with a negative [delayMs], or with a
    negative [jitterMs], completes normally and yields an instance that
    holds the negative value. *)
Lemma negative_configuration_accepted :
  constructor (Some {| opt_delayMs := Some (-1); opt_jitterMs := None |})
  = JS.Normal (configured (-1) 1000) /\
  constructor (Some {| opt_delayMs := None; opt_jitterMs := Some (-1) |})
  = JS.Normal (configured 500 (-1)) /\
  ~ JS.rejected
      (constructor (Some {| opt_delayMs := Some (-1); opt_jitterMs := None |})) /\
  ~ JS.rejected
      (constructor (Some {| opt_delayMs := None; opt_jitterMs := Some (-1) |})).
Proof.
  repeat split; cbn; tauto.
Qed.

(** C4, amended. The constructor validates nothing: whatever [delayMs] and
    [jitterMs] it is given, negative ones included, construction completes
    normally and the instance holds the values as given. *)
Theorem constructor_accepts_any_configuration (d j : Z) :
  constructor (Some {| opt_delayMs := Some d; opt_jitterMs := Some j |})
  = JS.Normal (configured d j) /\
  forall options, ~ JS.rejected (constructor options).
Proof.
  split; [reflexivity|]. intros options. cbn. tauto.
Qed.

(** C5. Jitter bound. For a draw of [Math.random()] in [0, 1), the jitter of
    a call lies in [0, jitterMs) when [jitterMs > 0] and is 0 when
    [jitterMs = 0]; every call of a sequence adds the jitter of its own
    draw; and with [jitterMs = 0] the wait durations of a sequence of calls
    depend on the arrival times and the starting cursor only. *)
Theorem jitter_bound (MastraDBMessage : Type)
    (this : ExampleInputProcessor) (host : Host) :
  Math_random_ok host ->
  (0 < jitterMs this -> 0 <= getJitter this host < jitterMs this) /\
  (jitterMs this = 0 -> getJitter this host = 0) /\
  (forall (calls : list (@Call MastraDBMessage)) s i c a,
      nth_error calls i = Some c ->
      nth_error (eval (serve this calls) s) i = Some a ->
      effectiveDelay a = delayMs this + getJitter this (call_host c)) /\
  (jitterMs this = 0 ->
   forall (calls1 calls2 : list (@Call MastraDBMessage)) s,
     map (fun c => Date_now (call_host c)) calls1
     = map (fun c => Date_now (call_host c)) calls2 ->
     map waitDurationMs (eval (serve this calls1) s)
     = map waitDurationMs (eval (serve this calls2) s)).
Proof.
  intro Hr. repeat split.
  - now apply getJitter_nonneg.
  - now apply getJitter_below.
  - intro Hz. apply getJitter_disabled. lia.
  - intros calls s i c a Hc Ha.
    rewrite (serve_nth this calls i c s Hc) in Ha.
    injection Ha as <-. reflexivity.
  - intros Hz calls1 calls2 s Hnow.
    apply serve_without_jitter; [lia | exact Hnow].
Qed.

Lemma jitter_bound_witness :
  Math_random_ok (mkHost 1000 (9#10)) /\
  0 <= getJitter (configured 500 100) (mkHost 1000 (9#10)) < 100.
Proof.
  assert (Hr : Math_random_ok (mkHost 1000 (9#10)))
    by draw_in_range.
  split; [exact Hr|].
  apply (proj1 (jitter_bound string (configured 500 100)
                  (mkHost 1000 (9#10)) Hr)).
  cbn. lia.
Defined.

(** C6. Reset behaviour. [resetRateLimitTimestamp] puts the cursor back to
    0. Whatever the cursor was, the next call, made at an epoch time [now],
    starts at [now], waits 0 and does not suspend; jitter shows only in
    the cursor it leaves, [now + delayMs + jitter] with [jitter >= 0]. With
    [delayMs = 500] and [jitterMs = 100] that cursor is [now + 500 + jitter]
    with [0 <= jitter < 100]. *)
Theorem reset_clears_backlog (MastraDBMessage : Type)
    (this : ExampleInputProcessor) (args : @ProcessInputArgs MastraDBMessage)
    (host : Host) (s : ModuleState) :
  Math_random_ok host ->
  Date_now_ok host ->
  let script := (resetRateLimitTimestamp ;; processInput this args host) in
  let a := eval script s in
  let t0 := Date_now host in
  nextAvailableTime (exec resetRateLimitTimestamp s) = 0 /\
  myStartTime a = t0 /\
  waitTime a = 0 /\
  waitDurationMs a = 0 /\
  awaited a = None /\
  nextAvailableTime (exec script s) = t0 + delayMs this + getJitter this host /\
  0 <= getJitter this host /\
  (delayMs this = 500 -> jitterMs this = 100 ->
   exists jitter,
     0 <= jitter < 100 /\
     nextAvailableTime (exec script s) = t0 + 500 + jitter).
Proof.
  intros Hr Hnow script a t0. unfold Date_now_ok in Hnow.
  assert (Hstart : myStartTime a = t0).
  { subst a script t0. cbn. unfold JS.Math_max. lia. }
  assert (Hcursor : nextAvailableTime (exec script s)
                    = t0 + delayMs this + getJitter this host).
  { subst script t0. cbn. unfold JS.Math_max. lia. }
  assert (Hwait : waitTime a = 0).
  { subst a script t0. cbn. unfold JS.Math_max. lia. }
  assert (Hawait : awaited a = None).
  { subst a script t0. cbn. unfold JS.Math_max.
    replace (Z.max (Date_now host) 0 - Date_now host) with 0 by lia.
    reflexivity. }
  repeat split; try assumption.
  - unfold waitDurationMs. now rewrite Hawait.
  - now apply getJitter_nonneg.
  - intros Hd Hj. exists (getJitter this host). split.
    + split; [now apply getJitter_nonneg|].
      rewrite <- Hj. apply getJitter_below; [exact Hr | lia].
    + rewrite Hcursor, Hd. reflexivity.
Qed.

Lemma reset_clears_backlog_witness :
  Math_random_ok (mkHost 1000 (9#10)) /\
  Date_now_ok (mkHost 1000 (9#10)) /\
  waitDurationMs
    (eval (resetRateLimitTimestamp ;;
           processInput (configured 500 100) (text "A") (mkHost 1000 (9#10)))
       {| nextAvailableTime := 700 |}) = 0 /\
  nextAvailableTime
    (exec (resetRateLimitTimestamp ;;
           processInput (configured 500 100) (text "A") (mkHost 1000 (9#10)))
       {| nextAvailableTime := 700 |}) = 1590.
Proof.
  assert (Hr : Math_random_ok (mkHost 1000 (9#10)))
    by draw_in_range.
  assert (Hnow : Date_now_ok (mkHost 1000 (9#10)))
    by (unfold Date_now_ok; cbn; lia).
  split; [exact Hr|]. split; [exact Hnow|].
  pose proof (reset_clears_backlog string (configured 500 100) (text "A")
                (mkHost 1000 (9#10)) {| nextAvailableTime := 700 |} Hr Hnow)
    as (_ & _ & _ & Hwait & _ & Hcursor & _).
  split; [exact Hwait | exact Hcursor].
Defined.

(** C7. Waits are never negative and an idle caller waits zero. For every
    call the wait computed, and the time actually spent suspended, equal
    [max(0, myStartTime - now)], so they are not negative; a call made when
    [now >= nextAvailableTime] starts at [now], waits exactly 0 and does not
    suspend, and leaves the cursor one [effectiveDelay] after [now]. *)
Theorem idle_caller_waits_zero (MastraDBMessage : Type)
    (this : ExampleInputProcessor) (args : @ProcessInputArgs MastraDBMessage)
    (host : Host) (s : ModuleState) :
  let a := eval (processInput this args host) s in
  waitTime a = Z.max 0 (myStartTime a - now a) /\
  waitDurationMs a = Z.max 0 (myStartTime a - now a) /\
  0 <= waitDurationMs a /\
  (nextAvailableTime s <= Date_now host ->
   myStartTime a = Date_now host /\
   waitTime a = 0 /\
   waitDurationMs a = 0 /\
   awaited a = None /\
   nextAvailableTime (exec (processInput this args host) s)
   = Date_now host + effectiveDelay a).
Proof.
  intro a. subst a. rewrite processInput_eval, processInput_exec.
  cbn zeta. unfold waitDurationMs.
  cbn [waitTime myStartTime now awaited effectiveDelay].
  set (start := Z.max (Date_now host) (nextAvailableTime s)).
  assert (Hge : Date_now host <= start) by (subst start; lia).
  split; [lia|].
  destruct (Z.ltb_spec 0 (start - Date_now host)) as [Hpos|Hnpos].
  - split; [lia|]. split; [lia|].
    intro Hidle. subst start. lia.
  - split; [lia|]. split; [lia|].
    intro Hidle. subst start. repeat split; lia.
Qed.

Lemma idle_caller_waits_zero_witness :
  nextAvailableTime {| nextAvailableTime := 1500 |}
  <= Date_now (mkHost 9000 (1#2)) /\
  waitDurationMs
    (eval (processInput (configured 500 1000) (text "A") (mkHost 9000 (1#2)))
       {| nextAvailableTime := 1500 |}) = 0.
Proof.
  assert (Hidle : nextAvailableTime {| nextAvailableTime := 1500 |}
                  <= Date_now (mkHost 9000 (1#2))) by (cbn; lia).
  split; [exact Hidle|].
  apply (proj2 (proj2 (proj2
           (idle_caller_waits_zero string (configured 500 1000) (text "A")
              (mkHost 9000 (1#2)) {| nextAvailableTime := 1500 |}))) Hidle).
Defined.

(** C8. Configuration defaults. Constructed without options, or with the
    empty options object, the processor has [delayMs = 500] and
    [jitterMs = 1000]; an option left out takes its default while the one
    given is kept, zero included. The values of the documentation comments,
    2000 and 0, are not the ones constructed. *)
Theorem constructor_defaults :
  constructor None = JS.Normal (configured 500 1000) /\
  constructor (Some no_options) = JS.Normal (configured 500 1000) /\
  (forall j, constructor (Some {| opt_delayMs := None; opt_jitterMs := Some j |})
             = JS.Normal (configured 500 j)) /\
  (forall d, constructor (Some {| opt_delayMs := Some d; opt_jitterMs := None |})
             = JS.Normal (configured d 1000)) /\
  constructor None <> JS.Normal (configured 2000 0).
Proof.
  repeat split. discriminate.
Qed.





(** C10. A [jitterMs] that is zero or negative disables jitter: [getJitter]
    returns exactly 0 whatever the draw, so [effectiveDelay] is [delayMs]
    and never less; and the constructor does hand such a [jitterMs] to the
    instance unchanged. *)
Theorem nonpositive_jitterMs_disables_jitter (MastraDBMessage : Type)
    (this : ExampleInputProcessor) (host : Host) :
  jitterMs this <= 0 ->
  getJitter this host = 0 /\
  (forall (args : @ProcessInputArgs MastraDBMessage) s,
      effectiveDelay (eval (processInput this args host) s) = delayMs this) /\
  (forall d,
      constructor (Some {| opt_delayMs := Some d;
                           opt_jitterMs := Some (jitterMs this) |})
      = JS.Normal (configured d (jitterMs this)) /\
      getJitter (configured d (jitterMs this)) host = 0).
Proof.
  intro Hj. split; [|split].
  - now apply getJitter_disabled.
  - intros args s. rewrite processInput_eval. cbn [effectiveDelay].
    rewrite getJitter_disabled by exact Hj. lia.
  - intro d. split; [reflexivity|]. now apply getJitter_disabled.
Qed.

Lemma nonpositive_jitterMs_disables_jitter_witness :
  jitterMs (configured 500 (-250)) <= 0 /\
  getJitter (configured 500 (-250)) (mkHost 1000 (9#10)) = 0.
Proof.
  assert (Hj : jitterMs (configured 500 (-250)) <= 0) by (cbn; lia).
  split; [exact Hj|].
  apply (proj1 (nonpositive_jitterMs_disables_jitter string
                  (configured 500 (-250)) (mkHost 1000 (9#10)) Hj)).
Defined.

(** ** Further properties of the spacing queue *)

Section Queue.

Context {MastraDBMessage : Type}.
Implicit Types (this : ExampleInputProcessor) (host : Host)
  (args : @ProcessInputArgs MastraDBMessage) (s : ModuleState)
  (c : @Call MastraDBMessage) (calls : list (@Call MastraDBMessage))
  (a b : @Activation MastraDBMessage).

(** What any run of [processInput] returns. *)
Lemma activation_shape this args host s :
  let a := eval (processInput this args host) s in
  now a = Date_now host /\
  effectiveDelay a = delayMs this + getJitter this host /\
  myStartTime a = Z.max (Date_now host) (nextAvailableTime s) /\
  waitDurationMs a = myStartTime a - now a /\
  nextAvailableTime (exec (processInput this args host) s)
  = myStartTime a + effectiveDelay a.
Proof.
  cbn zeta. rewrite processInput_eval, processInput_exec. cbn zeta.
  unfold waitDurationMs. cbn [now effectiveDelay myStartTime awaited].
  repeat split.
  destruct (Z.ltb_spec 0 (Z.max (Date_now host) (nextAvailableTime s)
                          - Date_now host)); lia.
Qed.

(** Two neighbours of a served sequence: the later one starts at its own
    clock reading or at the cursor the earlier one left, whichever is
    later. *)
Lemma neighbours this calls s i a b :
  nth_error (eval (serve this calls) s) i = Some a ->
  nth_error (eval (serve this calls) s) (S i) = Some b ->
  exists c,
    nth_error calls i = Some c /\
    effectiveDelay a = delayMs this + getJitter this (call_host c) /\
    myStartTime b = Z.max (now b) (myStartTime a + effectiveDelay a).
Proof.
  intros Ha Hb.
  apply serve_nth_inv in Ha as (ca & Hca & ->).
  apply serve_nth_inv in Hb as (cb & Hcb & ->).
  exists ca. split; [exact Hca|]. split; [reflexivity|].
  rewrite (stateBefore_S this calls i ca s Hca).
  destruct (activation_shape this (call_args cb) (call_host cb)
              (exec (processInput this (call_args ca) (call_host ca))
                 (stateBefore this calls i s)))
    as (Hnow & _ & Hstart & _).
  destruct (activation_shape this (call_args ca) (call_host ca)
              (stateBefore this calls i s)) as (_ & _ & _ & _ & Hcur).
  rewrite Hstart, Hnow, Hcur. reflexivity.
Qed.

Lemma served_wait this calls s i a :
  nth_error (eval (serve this calls) s) i = Some a ->
  now a <= myStartTime a /\ resumesAt a = myStartTime a.
Proof.
  intro Ha. apply serve_nth_inv in Ha as (c & _ & ->).
  destruct (activation_shape this (call_args c) (call_host c)
              (stateBefore this calls i s)) as (Hnow & _ & Hstart & Hwait & _).
  unfold resumesAt. rewrite Hwait. split; [|lia].
  rewrite Hstart, Hnow. lia.
Qed.

Lemma served_below this calls s i j b :
  nth_error (eval (serve this calls) s) j = Some b ->
  (i <= j)%nat ->
  exists a, nth_error (eval (serve this calls) s) i = Some a.
Proof.
  intros Hb Hij.
  destruct (nth_error (eval (serve this calls) s) i) as [a|] eqn:Ha;
    [now exists a|].
  apply nth_error_None in Ha.
  assert (j < length (eval (serve this calls) s))%nat
    by (apply nth_error_Some; congruence).
  lia.
Qed.


(** Spacing accumulates along the queue. *)
Lemma depth_spacing this calls s i j a b :
  Forall (fun c => Math_random_ok (call_host c)) calls ->
  (i <= j)%nat ->
  nth_error (eval (serve this calls) s) i = Some a ->
  nth_error (eval (serve this calls) s) j = Some b ->
  myStartTime a + Z.of_nat (j - i) * delayMs this <= myStartTime b.
Proof.
  intros Hok Hij Ha. revert b.
  induction j as [|j IH]; intros b Hb.
  - assert (i = 0)%nat as -> by lia. rewrite Ha in Hb. injection Hb as <-.
    cbn. lia.
  - destruct (Nat.eq_dec i (S j)) as [->|Hne].
    + rewrite Ha in Hb. injection Hb as <-.
      rewrite Nat.sub_diag. cbn. lia.
    + assert (Hij' : (i <= j)%nat) by lia.
      destruct (served_below this calls s j (S j) b Hb) as [m Hm]; [lia|].
      specialize (IH Hij' m Hm).
      destruct (neighbours this calls s j m b Hm Hb) as (c & Hc & Hdelay & Hstart).
      assert (Hj : 0 <= getJitter this (call_host c)).
      { apply getJitter_nonneg. rewrite Forall_forall in Hok. apply Hok.
        eapply nth_error_In; eassumption. }
      replace (S j - i)%nat with (S (j - i)) by lia.
      rewrite Nat2Z.inj_succ, Z.mul_succ_l. lia.
Qed.

End Queue.



(** X2. First come, first served. With a positive [delayMs], a call that
    reserved earlier is due to resume strictly earlier, by [delayMs] at
    least; so no two calls of a served sequence are due at the same
    instant. A call is due to resume at its [myStartTime]. *)
Theorem calls_resume_in_order (MastraDBMessage : Type)
    (this : ExampleInputProcessor) (calls : list (@Call MastraDBMessage))
    (s : ModuleState) (i j : nat) (a b : @Activation MastraDBMessage) :
  Forall (fun c => Math_random_ok (call_host c)) calls ->
  0 < delayMs this ->
  (i < j)%nat ->
  nth_error (eval (serve this calls) s) i = Some a ->
  nth_error (eval (serve this calls) s) j = Some b ->
  resumesAt a = myStartTime a /\
  resumesAt b = myStartTime b /\
  resumesAt a + delayMs this <= resumesAt b /\
  resumesAt a < resumesAt b.
Proof.
  intros Hok Hd Hij Ha Hb.
  destruct (served_wait this calls s i a Ha) as (_ & Hra).
  destruct (served_wait this calls s j b Hb) as (_ & Hrb).
  assert (Hij' : (i <= j)%nat) by lia.
  pose proof (depth_spacing this calls s i j a b Hok Hij' Ha Hb) as Hdepth.
  assert (1 <= Z.of_nat (j - i)) by lia.
  rewrite Hra, Hrb. repeat split; nia.
Qed.

Lemma calls_resume_in_order_witness :
  Forall (fun c => Math_random_ok (call_host c)) (burst 1000) /\
  0 < delayMs (configured 500 100) /\
  resumesAt (mkActivation 1000 550 1000 0 None ["A"%string])
  < resumesAt (mkActivation 1000 590 2083 1083 (Some 1083) ["C"%string]).
Proof.
  assert (Hd : 0 < delayMs (configured 500 100)) by (cbn; lia).
  split; [apply burst_draws_ok|]. split; [exact Hd|].
  apply (calls_resume_in_order string (configured 500 100) (burst 1000)
           initial 0 2
           (mkActivation 1000 550 1000 0 None ["A"%string])
           (mkActivation 1000 590 2083 1083 (Some 1083) ["C"%string])
           (burst_draws_ok 1000) Hd); [lia | reflexivity | reflexivity].
Defined.



Section Burst.

Context {MastraDBMessage : Type}.
Variables (this : ExampleInputProcessor) (t0 : Z).
Implicit Types (calls : list (@Call MastraDBMessage)).

(** A bound on the jitter of every call. *)
Variable J : Z.
Hypothesis jitter_at_most_J :
  forall host, Math_random_ok host -> getJitter this host <= J.



End Burst.




(** X6. A reset between two calls forgets the slot already granted. When a
    call, a reset and a second call happen at the same instant (an epoch
    time) on a processor with [delayMs > 0], the second call starts at once
    and waits 0: it starts no later than the first, so the two are not
    [delayMs] apart. *)
Theorem reset_forgets_granted_slot (MastraDBMessage : Type)
    (this : ExampleInputProcessor) (A B : @ProcessInputArgs MastraDBMessage)
    (hostA hostB : Host) (s : ModuleState) :
  Date_now hostB = Date_now hostA ->
  Date_now_ok hostA ->
  0 < delayMs this ->
  let a := fst (eval (resetBetween this A B hostA hostB) s) in
  let b := snd (eval (resetBetween this A B hostA hostB) s) in
  myStartTime b = Date_now hostB /\
  waitDurationMs b = 0 /\
  myStartTime b <= myStartTime a /\
  ~ (myStartTime a + delayMs this <= myStartTime b).
Proof.
  intros Hsame Hnow Hd a b. unfold Date_now_ok in Hnow.
  assert (Ha : myStartTime a = Z.max (Date_now hostA) (nextAvailableTime s))
    by reflexivity.
  assert (Hb : myStartTime b = Z.max (Date_now hostB) 0) by reflexivity.
  assert (Hw : waitDurationMs b = myStartTime b - now b).
  { subst b. unfold resetBetween, eval, bind, resetRateLimitTimestamp. cbn.
    unfold waitDurationMs. cbn [awaited myStartTime now].
    destruct (Z.ltb_spec 0 (JS.Math_max (Date_now hostB) 0 - Date_now hostB));
      unfold JS.Math_max in *; unfold sleep; lia. }
  assert (Hn : now b = Date_now hostB) by reflexivity.
  rewrite Hw, Hn, Hb, Ha. lia.
Qed.

Lemma reset_forgets_granted_slot_witness :
  Date_now (mkHost 1000 (1#3)) = Date_now (mkHost 1000 (1#2)) /\
  Date_now_ok (mkHost 1000 (1#2)) /\
  0 < delayMs (configured 500 100) /\
  myStartTime
    (snd (eval (resetBetween (configured 500 100) (text "A") (text "B")
                  (mkHost 1000 (1#2)) (mkHost 1000 (1#3)))
            {| nextAvailableTime := 4000 |})) = 1000.
Proof.
  assert (Hnow : Date_now_ok (mkHost 1000 (1#2)))
    by (unfold Date_now_ok; cbn; lia).
  assert (Hd : 0 < delayMs (configured 500 100)) by (cbn; lia).
  split; [reflexivity|]. split; [exact Hnow|]. split; [exact Hd|].
  apply (proj1 (reset_forgets_granted_slot string (configured 500 100)
                  (text "A") (text "B") (mkHost 1000 (1#2)) (mkHost 1000 (1#3))
                  {| nextAvailableTime := 4000 |} eq_refl Hnow Hd)).
Defined.

Section ForEach.

Context {A B : Type} (f : A -> Script B).

Lemma forEach_cons_eval x l s :
  eval (forEach f (x :: l)) s
  = eval (f x) s :: eval (forEach f l) (exec (f x) s).
Proof.
  unfold eval, exec. cbn [forEach]. unfold bind at 1.
  destruct (f x s) as [y s1]. unfold bind. cbn [fst snd].
  destruct (forEach f l s1). reflexivity.
Qed.

Lemma forEach_cons_exec x l s :
  exec (forEach f (x :: l)) s = exec (forEach f l) (exec (f x) s).
Proof.
  unfold eval, exec. cbn [forEach]. unfold bind at 1.
  destruct (f x s) as [y s1]. unfold bind. cbn [fst snd].
  destruct (forEach f l s1). reflexivity.
Qed.

Lemma forEach_nth l :
  forall i x s,
    nth_error l i = Some x ->
    nth_error (eval (forEach f l) s) i
    = Some (eval (f x) (exec (forEach f (firstn i l)) s)) /\
    exec (forEach f (firstn (S i) l)) s
    = exec (f x) (exec (forEach f (firstn i l)) s).
Proof.
  induction l as [|x0 l IH]; intros [|i] x s Hx; cbn in Hx;
    try discriminate.
  - injection Hx as ->. rewrite forEach_cons_eval. cbn [nth_error firstn].
    rewrite forEach_cons_exec. split; reflexivity.
  - rewrite forEach_cons_eval. cbn [nth_error].
    change (firstn (S (S i)) (x0 :: l)) with (x0 :: firstn (S i) l).
    change (firstn (S i) (x0 :: l)) with (x0 :: firstn i l).
    rewrite !forEach_cons_exec. now apply IH.
Qed.

Lemma forEach_length l : forall s, length (eval (forEach f l) s) = length l.
Proof.
  induction l as [|x l IH]; intro s; [reflexivity|].
  rewrite forEach_cons_eval. cbn [length]. now rewrite IH.
Qed.

End ForEach.

(** X7. The cursor is shared by all instances. When calls made on different
    instances are served one after the other, each call starts at least the
    [delayMs] of the instance of the call before it after that call's
    start; served through a single instance, the sequence is the one of
    [serve]. *)
Theorem instances_share_the_queue (MastraDBMessage : Type)
    (calls : list (ExampleInputProcessor * @Call MastraDBMessage))
    (s : ModuleState) (i : nat) (this : ExampleInputProcessor)
    (c : @Call MastraDBMessage) (a b : @Activation MastraDBMessage) :
  Forall (fun ic => Math_random_ok (call_host (snd ic))) calls ->
  nth_error calls i = Some (this, c) ->
  nth_error (eval (serveAcross calls) s) i = Some a ->
  nth_error (eval (serveAcross calls) s) (S i) = Some b ->
  myStartTime a + effectiveDelay a <= myStartTime b /\
  myStartTime a + delayMs this <= myStartTime b /\
  forall single : list (@Call MastraDBMessage),
    serveAcross (map (pair this) single) = serve this single.
Proof.
  intros Hok Hc Ha Hb.
  unfold serveAcross in Ha, Hb.
  set (f := fun ic : ExampleInputProcessor * @Call MastraDBMessage =>
              processInput (fst ic) (call_args (snd ic)) (call_host (snd ic)))
    in Ha, Hb.
  assert (Hlen : (S i < length calls)%nat).
  { assert (Hsome : nth_error (eval (forEach f calls) s) (S i) <> None)
      by congruence.
    apply nth_error_Some in Hsome. now rewrite forEach_length in Hsome. }
  destruct (nth_error calls (S i)) as [[that d]|] eqn:Hd;
    [|apply nth_error_None in Hd; lia].
  destruct (forEach_nth f calls i _ s Hc) as (Ha' & Hstep).
  destruct (forEach_nth f calls (S i) _ s Hd) as (Hb' & _).
  rewrite Ha' in Ha. injection Ha as <-.
  rewrite Hb', Hstep in Hb. injection Hb as <-.
  subst f. cbn [fst snd].
  assert (Hj : 0 <= getJitter this (call_host c)).
  { apply getJitter_nonneg. rewrite Forall_forall in Hok.
    apply (Hok (this, c)). eapply nth_error_In; eassumption. }
  split; [|split].
  - rewrite !processInput_eval. cbn [myStartTime effectiveDelay].
    rewrite processInput_exec. lia.
  - rewrite !processInput_eval. cbn [myStartTime effectiveDelay].
    rewrite processInput_exec. lia.
  - intro single. unfold serveAcross, serve.
    induction single as [|x single IH]; [reflexivity|].
    cbn [map forEach fst snd]. now rewrite IH.
Qed.

(** A slow and a fast instance called at the same instant. *)
Lemma mixed_draws_ok :
  Forall (fun ic : ExampleInputProcessor * @Call string =>
            Math_random_ok (call_host (snd ic)))
    [(configured 2000 0, arrival "A" 1000 (1#2));
     (configured 100 0, arrival "B" 1000 (1#3))].
Proof.
  repeat (apply Forall_cons; [draw_in_range|]). apply Forall_nil.
Qed.

Lemma instances_share_the_queue_witness :
  Forall (fun ic : ExampleInputProcessor * @Call string =>
            Math_random_ok (call_host (snd ic)))
    [(configured 2000 0, arrival "A" 1000 (1#2));
     (configured 100 0, arrival "B" 1000 (1#3))] /\
  1000 + delayMs (configured 2000 0) <= 3000.
Proof.
  split; [apply mixed_draws_ok|].
  apply (proj1 (proj2
    (instances_share_the_queue string
       [(configured 2000 0, arrival "A" 1000 (1#2));
        (configured 100 0, arrival "B" 1000 (1#3))]
       initial 0 (configured 2000 0) (arrival "A" 1000 (1#2))
       (mkActivation 1000 2000 1000 0 None ["A"%string])
       (mkActivation 1000 100 3000 2000 (Some 2000) ["B"%string])
       mixed_draws_ok eq_refl eq_refl eq_refl))).
Defined.

(** ** The workflow steps *)

Import Workflow.

Example split_edges :
  splitWhiteSpace (lit "") = [lit ""] /\
  splitWhiteSpace (lit " a") = [lit ""; lit "a"] /\
  splitWhiteSpace (lit "a  b") = [lit "a"; lit "b"] /\
  splitWhiteSpace (lit "a ") = [lit "a"; lit ""] /\
  splitWhiteSpace (lit "   ") = [lit ""; lit ""].
Proof. repeat split. Qed.

Example title_edges :
  titleOf (lit "https://example.com/docs/my-great-file.pdf")
  = lit "my great file" /\
  titleOf (lit "https://example.com/docs/") = lit "Untitled Document" /\
  titleOf (lit "https://example.com/.pdf") = lit "Untitled Document" /\
  titleOf (lit "https://example.com/archive.tar.gz") = lit "archive.tar" /\
  titleOf (lit "notes.v2-final") = lit "notes.v2 final".
Proof. repeat split. Qed.

Lemma splitFrom_not_nil inRun s : splitFrom inRun s <> [].
Proof.
  revert inRun. induction s as [|u rest IH]; intro inRun; cbn.
  - discriminate.
  - destruct (isWhiteSpace u).
    + destruct inRun; [apply IH | discriminate].
    + destruct (splitFrom false rest); discriminate.
Qed.

Lemma splitFrom_pieces inRun s :
  Forall (fun piece => withoutWhiteSpace piece = piece) (splitFrom inRun s).
Proof.
  revert inRun. induction s as [|u rest IH]; intro inRun; cbn.
  - repeat constructor.
  - destruct (isWhiteSpace u) eqn:Hu.
    + destruct inRun; [apply IH | constructor; [reflexivity | apply IH]].
    + specialize (IH false).
      destruct (splitFrom false rest) as [|piece pieces].
      * repeat constructor. unfold withoutWhiteSpace. cbn. now rewrite Hu.
      * inversion IH as [|? ? Hpiece Hpieces]; subst.
        constructor; [|exact Hpieces].
        unfold withoutWhiteSpace in *. cbn [filter]. rewrite Hu. cbn [negb].
        now rewrite Hpiece.
Qed.

Lemma splitFrom_concat inRun s :
  concat (splitFrom inRun s) = withoutWhiteSpace s.
Proof.
  revert inRun. induction s as [|u rest IH]; intro inRun; cbn.
  - reflexivity.
  - destruct (isWhiteSpace u) eqn:Hu; cbn.
    + destruct inRun; cbn; apply IH.
    + specialize (IH false).
      destruct (splitFrom false rest) as [|piece pieces] eqn:Hsplit.
      * now apply splitFrom_not_nil in Hsplit.
      * cbn in *. now rewrite IH.
Qed.

Lemma splitFrom_inner s :
  innerNonEmpty (splitFrom true s) /\ innerNonEmpty (tl (splitFrom false s)).
Proof.
  induction s as [|u rest [IHt IHf]]; cbn.
  - split; exact I.
  - destruct (isWhiteSpace u).
    + split; exact IHt.
    + destruct (splitFrom false rest) as [|piece pieces]; cbn in *.
      * split; exact I.
      * split; [|exact IHf].
        destruct pieces; [exact I | split; [discriminate | exact IHf]].
Qed.

Lemma innerNonEmpty_count pieces :
  innerNonEmpty pieces ->
  (length pieces <= length (nonEmpty pieces) + 1)%nat.
Proof.
  induction pieces as [|piece rest IH]; cbn; [lia|].
  destruct rest as [|next rest'].
  - intros _. destruct piece; cbn; lia.
  - intros [Hne Hrest]. specialize (IH Hrest).
    destruct piece as [|u piece']; [congruence|].
    unfold nonEmpty in *. cbn [filter length Nat.eqb negb] in *. lia.
Qed.

(** *** Trimming *)

Lemma trimStart_split s :
  exists pre,
    s = pre ++ trimStart s /\ Forall (fun u => isWhiteSpace u = true) pre.
Proof.
  induction s as [|u rest (pre & Hsplit & Hpre)]; cbn.
  - exists []. split; [reflexivity | constructor].
  - destruct (isWhiteSpace u) eqn:Hu.
    + exists (u :: pre). split; [cbn; now rewrite <- Hsplit|].
      now constructor.
    + exists []. split; [reflexivity | constructor].
Qed.

(** A string that does not begin with white space. *)
Lemma trimStart_fixed s :
  trimStart s = s <-> hd_error (map isWhiteSpace s) <> Some true.
Proof.
  destruct s as [|u rest]; cbn.
  - split; [discriminate | reflexivity].
  - destruct (isWhiteSpace u) eqn:Hu.
    + split; [|congruence]. intro Hfix. exfalso.
      destruct (trimStart_split rest) as (pre & Hsplit & _).
      apply (f_equal (@length N)) in Hsplit, Hfix.
      rewrite length_app in Hsplit. cbn [length] in Hfix. lia.
    + split; [discriminate | reflexivity].
Qed.

Lemma trimStart_idem s : trimStart (trimStart s) = trimStart s.
Proof.
  induction s as [|u rest IH]; [reflexivity|]. cbn.
  destruct (isWhiteSpace u) eqn:Hu; [exact IH|]. cbn. now rewrite Hu.
Qed.

Lemma trimEnd_split s :
  exists post,
    s = trimEnd s ++ post /\ Forall (fun u => isWhiteSpace u = true) post.
Proof.
  destruct (trimStart_split (rev s)) as (pre & Hsplit & Hpre).
  exists (rev pre). split.
  - unfold trimEnd. rewrite <- rev_app_distr, <- Hsplit. now rewrite rev_involutive.
  - now apply Forall_rev.
Qed.

Lemma trim_split s :
  exists pre post,
    s = pre ++ trim s ++ post /\
    Forall (fun u => isWhiteSpace u = true) pre /\
    Forall (fun u => isWhiteSpace u = true) post.
Proof.
  destruct (trimStart_split s) as (pre & Hpre & Hws).
  destruct (trimEnd_split (trimStart s)) as (post & Hpost & Hws').
  exists pre, post. unfold trim. now rewrite <- Hpost.
Qed.

Lemma trim_fixed s : trim (trim s) = trim s.
Proof.
  assert (Hend : forall t, trimEnd (trimEnd t) = trimEnd t).
  { intro t. unfold trimEnd. now rewrite rev_involutive, trimStart_idem. }
  assert (Hstart : trimStart (trim s) = trim s).
  { apply trimStart_fixed. unfold trim.
    destruct (trimEnd_split (trimStart s)) as (post & Hsplit & _).
    pose proof (proj1 (trimStart_fixed (trimStart s)) (trimStart_idem s))
      as Hclean.
    rewrite Hsplit in Hclean.
    destruct (trimEnd (trimStart s)); cbn in *; [discriminate | exact Hclean]. }
  unfold trim at 1. rewrite Hstart. unfold trim. apply Hend.
Qed.

Lemma trim_length s : (length (trim s) <= length s)%nat.
Proof.
  destruct (trim_split s) as (pre & post & Hsplit & _).
  apply (f_equal (@length N)) in Hsplit.
  rewrite !length_app in Hsplit. lia.
Qed.

Lemma trim_white s :
  Forall (fun u => isWhiteSpace u = true) s -> trim s = [].
Proof.
  intro Hws. unfold trim.
  assert (Hstart : trimStart s = []).
  { induction Hws as [|u rest Hu _ IH]; [reflexivity|]. cbn. now rewrite Hu. }
  now rewrite Hstart.
Qed.

Lemma substring_from_0 s n : substring s 0 n = firstn n s.
Proof.
  unfold substring. cbn [Nat.min]. rewrite Nat.max_0_l, Nat.sub_0_r.
  cbn [skipn]. destruct (Nat.le_ge_cases n (length s)) as [Hle|Hge].
  - now rewrite Nat.min_l.
  - rewrite Nat.min_r by exact Hge. rewrite !firstn_all2; [reflexivity|lia|lia].
Qed.

Lemma splitFrom_true s : splitFrom true s = splitFrom false (trimStart s).
Proof.
  induction s as [|u rest IH]; [reflexivity|].
  cbn [splitFrom trimStart]. destruct (isWhiteSpace u) eqn:Hu; [exact IH|].
  cbn [splitFrom]. now rewrite Hu.
Qed.

Lemma splitFrom_first s :
  hd [] (splitFrom false s) = [] <-> s = [] \/ startsWhite s = true.
Proof.
  destruct s as [|u rest]; cbn.
  - split; [now left | reflexivity].
  - destruct (isWhiteSpace u); cbn.
    + split; [now right | reflexivity].
    + destruct (splitFrom false rest); cbn;
        (split; [discriminate | intros [H|H]; discriminate]).
Qed.

(** A content that is one piece is that piece. *)
Lemma splitFrom_single s piece :
  splitFrom false s = [piece] -> s <> [] -> piece <> [].
Proof.
  destruct s as [|u rest]; [congruence|]. cbn.
  destruct (isWhiteSpace u).
  - intros Heq _. injection Heq as _ Hrest.
    now apply splitFrom_not_nil in Hrest.
  - destruct (splitFrom false rest); intros Heq _; injection Heq as <-;
      discriminate.
Qed.

Lemma splitFrom_last s :
  forall inRun,
    last (splitFrom inRun s) [] = [] <-> s = [] \/ endsWhite s = true.
Proof.
  induction s as [|u rest IH]; intro inRun.
  - cbn. split; [now left | reflexivity].
  - assert (Hends : endsWhite (u :: rest)
                    = match rest with
                      | [] => isWhiteSpace u
                      | _ :: _ => endsWhite rest
                      end) by reflexivity.
    rewrite Hends. cbn [splitFrom].
    destruct (isWhiteSpace u) eqn:Hu.
    + assert (Hlast : last (splitFrom inRun (u :: rest)) []
                      = last (splitFrom true rest) []).
      { cbn [splitFrom]. rewrite Hu. destruct inRun; [reflexivity|].
        pose proof (splitFrom_not_nil true rest).
        destruct (splitFrom true rest); [congruence | reflexivity]. }
      cbn [splitFrom] in Hlast. rewrite Hu in Hlast. rewrite Hlast.
      rewrite (IH true). destruct rest as [|v rest'].
      * split; [now right | now left].
      * split; [intros [H|H]; [discriminate | now right]
               | intros [H|H]; [discriminate | now right]].
    + specialize (IH false).
      destruct (splitFrom false rest) as [|piece pieces] eqn:Hsplit.
      * now apply splitFrom_not_nil in Hsplit.
      * destruct rest as [|v rest'].
        -- cbn in Hsplit. injection Hsplit as <- <-. cbn.
           split; [discriminate | intros [H|H]; discriminate].
        -- destruct pieces as [|next pieces'].
           ++ cbn [last].
              assert (Hpiece : piece <> [])
                by (eapply splitFrom_single; [exact Hsplit | discriminate]).
              cbn [last] in IH.
              split; [discriminate|]. intros [H|H]; [discriminate|].
              exfalso. apply Hpiece, IH. now right.
           ++ change (last ((u :: piece) :: next :: pieces') [])
                with (last (piece :: next :: pieces') []).
              rewrite IH.
              split; intros [H|H]; try discriminate; now right.
Qed.

Lemma innerNonEmpty_nth pieces :
  innerNonEmpty pieces ->
  forall i, (S i < length pieces)%nat -> nth_error pieces i <> Some [].
Proof.
  induction pieces as [|piece rest IH]; cbn [length]; [lia|].
  destruct rest as [|next rest']; cbn [innerNonEmpty length]; [lia|].
  intros [Hne Hrest] [|i] Hi; cbn [nth_error].
  - congruence.
  - apply (IH Hrest). cbn [length]. lia.
Qed.

Lemma innerNonEmpty_exact pieces :
  innerNonEmpty pieces ->
  length pieces
  = (length (nonEmpty pieces)
     + match pieces with
       | [] => 0
       | _ :: _ => if Nat.eqb (length (last pieces [])) 0 then 1 else 0
       end)%nat.
Proof.
  induction pieces as [|piece rest IH]; [reflexivity|].
  destruct rest as [|next rest'].
  - intros _. unfold nonEmpty. cbn. destruct piece; reflexivity.
  - intros [Hne Hrest]. specialize (IH Hrest).
    change (last (piece :: next :: rest') []) with (last (next :: rest') []).
    destruct piece as [|u piece']; [congruence|].
    unfold nonEmpty in *. cbn [filter length Nat.eqb negb] in *. lia.
Qed.

(** The runs of white space that separate the pieces. *)
Lemma splitFrom_runs n :
  forall s,
    (length s <= n)%nat ->
    exists runs,
      length (splitFrom false s) = S (length runs) /\
      Forall (fun run => run <> [] /\
                         Forall (fun u => isWhiteSpace u = true) run) runs /\
      interleave (splitFrom false s) runs = s.
Proof.
  induction n as [|n IH]; intros s Hlen.
  - destruct s; [|cbn in Hlen; lia]. exists []. repeat split. constructor.
  - destruct s as [|u rest]; [exists []; repeat split; constructor|].
    cbn [length] in Hlen. cbn [splitFrom].
    destruct (isWhiteSpace u) eqn:Hu.
    + rewrite splitFrom_true.
      destruct (trimStart_split rest) as (pre & Hsplit & Hpre).
      assert (Hshort : (length (trimStart rest) <= n)%nat).
      { apply (f_equal (@length N)) in Hsplit. rewrite length_app in Hsplit.
        lia. }
      destruct (IH (trimStart rest) Hshort) as (runs & Hcount & Hruns & Hjoin).
      exists ((u :: pre) :: runs). split; [cbn [length]; now rewrite Hcount|].
      split.
      * constructor; [|exact Hruns]. split; [discriminate|].
        now constructor.
      * cbn [interleave app]. rewrite Hjoin. now rewrite <- Hsplit.
    + assert (Hshort : (length rest <= n)%nat) by lia.
      destruct (IH rest Hshort) as (runs & Hcount & Hruns & Hjoin).
      destruct (splitFrom false rest) as [|piece pieces] eqn:Hpieces;
        [now apply splitFrom_not_nil in Hpieces|].
      exists runs. split; [exact Hcount|]. split; [exact Hruns|].
      cbn [interleave] in *. rewrite <- app_comm_cons. now rewrite Hjoin.
Qed.

(** X8. Counting words. [wordCount] is never 0: an empty content counts 1,
    and so does any content without white space. The content is its
    pieces with a run of white space between each two. The first piece is
    empty exactly when the content is empty or begins with white space,
    the last one exactly when it is empty or ends with white space, and no
    piece in between is empty: white space at the start and at the end
    each add one to the count, which exceeds the number of non-empty
    pieces by at most 2. *)
Theorem wordCount_counts_empty_ends (content : jsstring) :
  let pieces := splitWhiteSpace content in
  (1 <= wordCount content)%nat /\
  (length (nonEmpty pieces) <= wordCount content
   <= length (nonEmpty pieces) + 2)%nat /\
  (withoutWhiteSpace content = content -> wordCount content = 1%nat) /\
  wordCount [] = 1%nat /\
  (hd [] pieces = [] <-> content = [] \/ startsWhite content = true) /\
  (last pieces [] = [] <-> content = [] \/ endsWhite content = true) /\
  (forall i, (0 < i)%nat -> (S i < length pieces)%nat ->
             nth_error pieces i <> Some []) /\
  (exists runs,
      length pieces = S (length runs) /\
      Forall (fun run => run <> [] /\
                         Forall (fun u => isWhiteSpace u = true) run) runs /\
      interleave pieces runs = content) /\
  wordCount content
  = (length (nonEmpty pieces)
     + match content with
       | [] => 1
       | _ :: _ => (if startsWhite content then 1 else 0)
                   + (if endsWhite content then 1 else 0)
       end)%nat.
Proof.
  cbn zeta. unfold wordCount, splitWhiteSpace.
  pose proof (splitFrom_not_nil false content) as Hnil.
  destruct (splitFrom_inner content) as [_ Hinner].
  pose proof (splitFrom_first content) as Hfirst.
  pose proof (splitFrom_last content false) as Hlast.
  split; [|split; [|split; [|split; [|split; [|split; [|split; [|split]]]]]]].
  - destruct (splitFrom false content); cbn; [congruence | lia].
  - split; [unfold nonEmpty; apply filter_length_le|].
    destruct (splitFrom false content) as [|piece pieces]; [congruence|].
    cbn [tl] in Hinner. apply innerNonEmpty_count in Hinner.
    unfold nonEmpty in *. cbn [filter length].
    destruct (negb (Nat.eqb (length piece) 0)); cbn [length]; lia.
  - intro Hclean. clear -Hclean. unfold withoutWhiteSpace in Hclean.
    induction content as [|u rest IH]; [reflexivity|].
    cbn [filter] in Hclean. cbn [splitFrom].
    destruct (isWhiteSpace u) eqn:Hu; cbn [negb] in Hclean.
    + exfalso.
      pose proof (filter_length_le (fun u => negb (isWhiteSpace u)) rest)
        as Hlen.
      apply (f_equal (@length N)) in Hclean. cbn [length] in Hclean. lia.
    + injection Hclean as Hrest. specialize (IH Hrest).
      destruct (splitFrom false rest) as [|piece pieces]; [reflexivity|].
      exact IH.
  - reflexivity.
  - exact Hfirst.
  - exact Hlast.
  - intros i Hi Hlen.
    destruct (splitFrom false content) as [|piece pieces]; [congruence|].
    destruct i as [|i]; [lia|]. cbn [nth_error].
    apply (innerNonEmpty_nth pieces Hinner). cbn [length] in Hlen. lia.
  - apply (splitFrom_runs (length content)). lia.
  - destruct content as [|u rest]; [reflexivity|].
    destruct (splitFrom false (u :: rest)) as [|piece pieces] eqn:Hsplit;
      [congruence|].
    cbn [tl hd] in Hinner, Hfirst.
    pose proof (innerNonEmpty_exact pieces Hinner) as Hexact.
    assert (Hs : startsWhite (u :: rest) = true <-> piece = []).
    { rewrite Hfirst. split; [now right | intros [H|H]; [discriminate|exact H]]. }
    assert (He : endsWhite (u :: rest) = true
                 <-> last (piece :: pieces) [] = []).
    { rewrite Hlast. split; [now right | intros [H|H]; [discriminate|exact H]]. }
    assert (Hsb : (if startsWhite (u :: rest) then 1 else 0)%nat
                  = (if Nat.eqb (length piece) 0 then 1 else 0)%nat).
    { destruct piece as [|w piece']; cbn [length Nat.eqb];
        destruct (startsWhite (u :: rest)); try reflexivity; exfalso.
      - assert (X : false = true) by (apply Hs; reflexivity). discriminate X.
      - assert (X : w :: piece' = []) by (apply Hs; reflexivity).
        discriminate X. }
    assert (Heb : (if endsWhite (u :: rest) then 1 else 0)%nat
                  = (if Nat.eqb (length (last (piece :: pieces) [])) 0
                     then 1 else 0)%nat).
    { destruct (last (piece :: pieces) []) as [|w tail]; cbn [length Nat.eqb];
        destruct (endsWhite (u :: rest)); try reflexivity; exfalso.
      - assert (X : false = true) by (apply He; reflexivity). discriminate X.
      - assert (X : w :: tail = []) by (apply He; reflexivity).
        discriminate X. }
    rewrite Hsb, Heb. clear Hs He Hsb Heb Hfirst Hlast.
    unfold nonEmpty in *. cbn [filter length].
    destruct pieces as [|next pieces'].
    + assert (Hpiece : piece <> [])
        by (eapply splitFrom_single; [exact Hsplit | discriminate]).
      cbn [last]. destruct piece; [congruence|]. reflexivity.
    + change (last (piece :: next :: pieces') [])
        with (last (next :: pieces') []).
      destruct piece as [|w piece']; cbn [length Nat.eqb negb filter] in *;
        lia.
Qed.

Lemma wordCount_counts_empty_ends_witness :
  withoutWhiteSpace (lit "success") = lit "success" /\
  wordCount (lit "success") = 1%nat.
Proof.
  assert (Hclean : withoutWhiteSpace (lit "success") = lit "success")
    by reflexivity.
  split; [exact Hclean|].
  apply (proj1 (proj2 (proj2 (wordCount_counts_empty_ends (lit "success"))))
           Hclean).
Defined.

(** X9. Splitting drops white space and nothing else: no piece of
    [content.split(/\s+/)] holds a white-space character, and the pieces
    put together again are the content without its white space. *)
Theorem split_loses_only_white_space (content : jsstring) :
  Forall (fun piece => Forall (fun u => isWhiteSpace u = false) piece)
    (splitWhiteSpace content) /\
  concat (splitWhiteSpace content) = withoutWhiteSpace content.
Proof.
  split; [|apply splitFrom_concat].
  pose proof (splitFrom_pieces false content) as Hpieces.
  unfold splitWhiteSpace.
  eapply Forall_impl; [|exact Hpieces].
  intros piece Hpiece. cbn beta in Hpiece.
  apply Forall_forall. intros u Hu.
  rewrite <- Hpiece in Hu. unfold withoutWhiteSpace in Hu.
  apply filter_In in Hu as [_ Hu].
  now destruct (isWhiteSpace u).
Qed.

(** X10. The summary. A content of at most 150 code units is its own
    summary, unchanged and untrimmed; a longer one is cut to its first 150
    units, rid of the white space at both ends of the cut, and followed by
    three dots. The summary is never longer than 153 units. *)
Theorem summary_cuts_long_content (inputData : Analysis.t) :
  let content := Analysis.content inputData in
  let summary := Enriched.summary (summarizeContentStep inputData) in
  (length summary <= 153)%nat /\
  ((length content <= 150)%nat -> summary = content) /\
  ((150 < length content)%nat ->
   exists pre body post,
     firstn 150 content = pre ++ body ++ post /\
     Forall (fun u => isWhiteSpace u = true) pre /\
     Forall (fun u => isWhiteSpace u = true) post /\
     trim body = body /\
     summary = body ++ lit "...").
Proof.
  cbn zeta. unfold summarizeContentStep. cbn [Enriched.summary].
  rewrite substring_from_0.
  destruct (Nat.ltb_spec 150 (length (Analysis.content inputData)))
    as [Hlong|Hshort].
  - split; [|split].
    + rewrite length_app.
      pose proof (trim_length (firstn 150 (Analysis.content inputData))) as Ht.
      rewrite length_firstn in Ht. cbn [lit length map list_ascii_of_string].
      lia.
    + intro Hle. lia.
    + intros _.
      destruct (trim_split (firstn 150 (Analysis.content inputData)))
        as (pre & post & Hsplit & Hpre & Hpost).
      exists pre, (trim (firstn 150 (Analysis.content inputData))), post.
      repeat split; try assumption. apply trim_fixed.
  - split; [lia|]. split; [reflexivity|]. intro Hlt. lia.
Qed.

Lemma summary_cuts_long_content_witness :
  (length (Analysis.content
             (Analysis.make (lit "All is well.") (lit "note") neutral [] 3))
   <= 150)%nat /\
  Enriched.summary
    (summarizeContentStep
       (Analysis.make (lit "All is well.") (lit "note") neutral [] 3))
  = lit "All is well.".
Proof.
  assert (Hshort :
    (length (Analysis.content
               (Analysis.make (lit "All is well.") (lit "note") neutral [] 3))
     <= 150)%nat) by (cbn; lia).
  split; [exact Hshort|].
  apply (proj1 (proj2 (summary_cuts_long_content
                         (Analysis.make (lit "All is well.") (lit "note")
                            neutral [] 3))) Hshort).
Defined.

(** *** Reading time, validation, title *)

Lemma Math_ceil_200 (w : Z) :
  let r := Math_ceil (inject_Z w / 200) in
  200 * (r - 1) < w <= 200 * r.
Proof.
  cbn zeta. unfold Math_ceil, Qceiling, Qfloor.
  cbn -[Z.mul Z.div Z.opp Z.sub]. rewrite Z.mul_1_r.
  pose proof (Z.div_mod (- w) 200 ltac:(lia)) as Hdiv.
  pose proof (Z.mod_pos_bound (- w) 200 ltac:(lia)) as Hmod.
  lia.
Qed.

(** X11. Reading time. [readingTimeMinutes] is the word count divided by
    200 and rounded up: [200 * (r - 1) < wordCount <= 200 * r]. Fed with
    the word count of [analyzeContentStep], it is at least one minute,
    also for an empty content. *)
Theorem reading_time_rounds_up (inputData : Analysis.t) :
  let minutes := Enriched.readingTimeMinutes (summarizeContentStep inputData) in
  200 * (minutes - 1) < Analysis.wordCount inputData <= 200 * minutes /\
  forall content,
    Analysis.wordCount inputData = Z.of_nat (wordCount content) ->
    1 <= minutes.
Proof.
  cbn zeta. unfold summarizeContentStep. cbn [Enriched.readingTimeMinutes].
  pose proof (Math_ceil_200 (Analysis.wordCount inputData)) as Hceil.
  cbn zeta in Hceil. split; [exact Hceil|].
  intros content Hcount.
  assert (1 <= wordCount content)%nat.
  { unfold wordCount, splitWhiteSpace.
    pose proof (splitFrom_not_nil false content).
    destruct (splitFrom false content); cbn; [congruence | lia]. }
  lia.
Qed.

Lemma prepare_after_validate (toUpperCase : jsstring -> jsstring)
    (toISOString : jsstring) (inputData : Fetched.t) :
  let validated := validateDocumentStep toUpperCase toISOString inputData in
  prepareForEnrichmentStep validated =
  if (50 <? length (Fetched.rawContent inputData))%nat
  then Done {| Prepared.content := trim (Fetched.rawContent inputData);
               Prepared.title := Validated.title validated |}
  else Failed (lit "Document " ++ [0x22%N] ++ Validated.title validated
               ++ [0x22%N] ++ lit " failed validation").
Proof.
  cbn zeta. unfold prepareForEnrichmentStep, validateDocumentStep.
  cbn [Validated.isValid Validated.content Validated.title].
  now destruct (50 <? length (Fetched.rawContent inputData))%nat.
Qed.

(** X12. Validation looks at the raw length. A fetched document goes
    through [validateDocumentStep] and [prepareForEnrichmentStep] exactly
    when its raw content has more than 50 code units, and then with the
    content trimmed; otherwise the second step throws. The length is taken
    before trimming: a raw content of white space only, longer than 50, is
    passed on with an empty content. *)
Theorem validation_measures_raw_content
    (toUpperCase : jsstring -> jsstring) (toISOString : jsstring)
    (inputData : Fetched.t) :
  let raw := Fetched.rawContent inputData in
  let validated := validateDocumentStep toUpperCase toISOString inputData in
  ((length raw <= 50)%nat <->
   exists message, prepareForEnrichmentStep validated = Failed message) /\
  ((50 < length raw)%nat ->
   exists prepared,
     prepareForEnrichmentStep validated = Done prepared /\
     Prepared.content prepared = trim raw /\
     Prepared.title prepared = Validated.title validated /\
     (length (Prepared.content prepared) <= length raw)%nat /\
     (Forall (fun u => isWhiteSpace u = true) raw ->
      Prepared.content prepared = [])).
Proof.
  cbn zeta.
  rewrite (prepare_after_validate toUpperCase toISOString inputData).
  cbn zeta.
  destruct (Nat.ltb_spec 50 (length (Fetched.rawContent inputData)))
    as [Hlong|Hshort].
  - split.
    + split; [lia|]. intros (message & Hfail). discriminate.
    + intros _. eexists. split; [reflexivity|]. cbn [Prepared.content Prepared.title].
      repeat split; [apply trim_length | apply trim_white].
  - split.
    + split; [|intros _; exact Hshort]. intros _. eexists. reflexivity.
    + intro Hlt. lia.
Qed.

Lemma validation_measures_raw_content_witness :
  (50 < length (Fetched.rawContent
                  (Fetched.make (lit "https://example.com/blank.txt")
                     (repeat 0x20%N 60) (lit "2026-01-01T00:00:00.000Z"))))%nat /\
  exists prepared,
    prepareForEnrichmentStep
      (validateDocumentStep (fun s => s) (lit "2026-01-01T00:00:00.001Z")
         (Fetched.make (lit "https://example.com/blank.txt")
            (repeat 0x20%N 60) (lit "2026-01-01T00:00:00.000Z")))
    = Done prepared /\
    Prepared.content prepared = [].
Proof.
  assert (Hlong :
    (50 < length (Fetched.rawContent
                    (Fetched.make (lit "https://example.com/blank.txt")
                       (repeat 0x20%N 60)
                       (lit "2026-01-01T00:00:00.000Z"))))%nat)
    by (cbn; lia).
  split; [exact Hlong|].
  destruct (proj2 (validation_measures_raw_content (fun s => s)
                     (lit "2026-01-01T00:00:00.001Z")
                     (Fetched.make (lit "https://example.com/blank.txt")
                        (repeat 0x20%N 60) (lit "2026-01-01T00:00:00.000Z")))
              Hlong)
    as (prepared & Hdone & _ & _ & _ & Hblank).
  exists prepared. split; [exact Hdone|].
  apply Hblank. cbn. repeat constructor.
Defined.

Lemma reading_time_rounds_up_witness :
  Analysis.wordCount (Analysis.make [] (lit "empty") neutral [] 1)
  = Z.of_nat (wordCount []) /\
  1 <= Enriched.readingTimeMinutes
         (summarizeContentStep (Analysis.make [] (lit "empty") neutral [] 1)).
Proof.
  assert (Hcount :
    Analysis.wordCount (Analysis.make [] (lit "empty") neutral [] 1)
    = Z.of_nat (wordCount [])) by reflexivity.
  split; [exact Hcount|].
  apply (proj2 (reading_time_rounds_up
                  (Analysis.make [] (lit "empty") neutral [] 1)) [] Hcount).
Defined.

Lemma splitOn_pieces sep s :
  splitOn sep s <> [] /\ Forall (fun piece => ~ In sep piece) (splitOn sep s).
Proof.
  induction s as [|u rest [IHnil IH]]; cbn.
  - split; [discriminate|]. repeat constructor. intros [].
  - destruct (N.eqb_spec u sep) as [->|Hne].
    + split; [discriminate|]. constructor; [intros [] | exact IH].
    + destruct (splitOn sep rest) as [|piece pieces]; [congruence|].
      split; [discriminate|].
      inversion IH as [|? ? Hpiece Hpieces]; subst.
      constructor; [|exact Hpieces].
      intros [Heq|Hin]; [congruence | now apply Hpiece].
Qed.

Lemma dropExtension_incl u s : In u (dropExtension s) -> In u s.
Proof.
  induction s as [|v rest IH]; cbn; [tauto|].
  destruct ((v =? 0x2E)%N && negb (Nat.eqb (length rest) 0)
            && forallb isWord rest); cbn; tauto.
Qed.

Lemma dashesToSpaces_chars s :
  ~ In 0x2D%N (dashesToSpaces s) /\
  (In 0x2F%N (dashesToSpaces s) -> In 0x2F%N s).
Proof.
  unfold dashesToSpaces. split.
  - intro Hin. apply in_map_iff in Hin as (u & Hu & _).
    destruct (N.eqb_spec u 0x2D); [discriminate | congruence].
  - intro Hin. apply in_map_iff in Hin as (u & Hu & Hin).
    destruct (N.eqb_spec u 0x2D); [discriminate | congruence].
Qed.

(** The part of a URL after its last slash. *)
Lemma splitOn_clean sep part : ~ In sep part -> splitOn sep part = [part].
Proof.
  induction part as [|u rest IH]; [reflexivity|]. intro Hclean. cbn.
  destruct (N.eqb_spec u sep) as [->|_]; [exfalso; apply Hclean; now left|].
  rewrite IH; [reflexivity|]. intro Hin. apply Hclean. now right.
Qed.

Lemma splitOn_after sep directory rest :
  exists front,
    front <> [] /\
    splitOn sep (directory ++ sep :: rest) = front ++ splitOn sep rest.
Proof.
  induction directory as [|u d (front & Hfront & IH)]; cbn.
  - rewrite N.eqb_refl. exists [[]]. split; [discriminate | reflexivity].
  - destruct (N.eqb_spec u sep) as [->|_].
    + exists ([] :: front). split; [discriminate|]. now rewrite IH.
    + rewrite IH. destruct front as [|piece front']; [congruence|].
      exists ((u :: piece) :: front'). split; [discriminate | reflexivity].
Qed.

Lemma splitOn_last_part sep directory part :
  ~ In sep part ->
  directory = [] \/ (exists d, directory = d ++ [sep]) ->
  nth_error (splitOn sep (directory ++ part))
    (length (splitOn sep (directory ++ part)) - 1) = Some part.
Proof.
  intros Hclean [->|(d & ->)].
  - cbn [app]. now rewrite splitOn_clean.
  - rewrite <- app_assoc. cbn [app].
    destruct (splitOn_after sep d part) as (front & _ & ->).
    rewrite splitOn_clean by exact Hclean.
    rewrite length_app. cbn [length].
    replace (length front + 1 - 1)%nat with (length front) by lia.
    rewrite nth_error_app2 by lia. now rewrite Nat.sub_diag.
Qed.

Lemma url_parts (url : jsstring) :
  exists directory part,
    url = directory ++ part /\
    ~ In 0x2F%N part /\
    (directory = [] \/ exists d, directory = d ++ [0x2F%N]).
Proof.
  induction url as [|u rest (directory & part & -> & Hclean & Hdir)].
  - exists [], []. split; [reflexivity|]. split; [intros []|now left].
  - destruct Hdir as [->|(d & ->)].
    + destruct (N.eqb_spec u 0x2F) as [->|Hne].
      * exists [0x2F%N], part. split; [reflexivity|]. split; [exact Hclean|].
        right. now exists [].
      * exists [], (u :: part). split; [reflexivity|].
        split; [|now left]. intros [Heq|Hin]; [congruence | now apply Hclean].
    + exists (u :: d ++ [0x2F%N]), part. split; [reflexivity|].
      split; [exact Hclean|]. right. now exists (u :: d).
Qed.

Lemma dropExtension_drops stem ext :
  ext <> [] -> forallb isWord ext = true ->
  dropExtension (stem ++ 0x2E%N :: ext) = stem.
Proof.
  intros Hne Hword.
  induction stem as [|v stem' IH]; cbn [app dropExtension].
  - rewrite Hword. destruct ext; [congruence | reflexivity].
  - rewrite forallb_app. cbn [forallb].
    replace (isWord 0x2E) with false by reflexivity.
    rewrite andb_false_r, andb_false_r. now rewrite IH.
Qed.

Lemma dropExtension_keeps s :
  (forall stem ext,
      s = stem ++ 0x2E%N :: ext -> ext = [] \/ forallb isWord ext = false) ->
  dropExtension s = s.
Proof.
  induction s as [|u rest IH]; [reflexivity|]. intro Hnone. cbn.
  destruct ((u =? 0x2E)%N && negb (Nat.eqb (length rest) 0)
            && forallb isWord rest) eqn:Hmatch.
  - exfalso. apply andb_true_iff in Hmatch as [Hmatch Hword].
    apply andb_true_iff in Hmatch as [Hdot Hlen].
    apply N.eqb_eq in Hdot. subst u.
    destruct (Hnone [] rest eq_refl) as [->|Hnot];
      [discriminate Hlen | congruence].
  - rewrite IH; [reflexivity|]. intros stem ext ->.
    apply (Hnone (u :: stem) ext). reflexivity.
Qed.

Lemma dashesToSpaces_word ext :
  forallb isWord ext = true -> dashesToSpaces ext = ext.
Proof.
  unfold dashesToSpaces. induction ext as [|u rest IH]; [reflexivity|].
  cbn [forallb map]. intro Hword. apply andb_true_iff in Hword as [Hu Hrest].
  rewrite (IH Hrest). destruct (N.eqb_spec u 0x2D) as [->|_];
    [discriminate Hu | reflexivity].
Qed.

Lemma titleOf_shape (url : jsstring) :
  titleOf url <> [] /\
  ~ In 0x2F%N (titleOf url) /\
  ~ In 0x2D%N (titleOf url) /\
  forall toUpperCase toISOString inputData,
    Fetched.url inputData = url ->
    exists u rest,
      titleOf url = u :: rest /\
      Validated.title (validateDocumentStep toUpperCase toISOString inputData)
      = toUpperCase [u] ++ rest.
Proof.
  assert (Hshape :
    titleOf url = lit "Untitled Document" \/
    exists part,
      In part (splitOn 0x2F url) /\
      titleOf url = dropExtension (dashesToSpaces part) /\
      titleOf url <> []).
  { unfold titleOf.
    destruct (nth_error (splitOn 0x2F url) (length (splitOn 0x2F url) - 1))
      as [part|] eqn:Hpart; cbn [option_map orElse]; [|now left].
    destruct (dropExtension (dashesToSpaces part)) as [|u rest] eqn:Hdrop;
      [now left|].
    right. exists part. split; [eapply nth_error_In; eassumption|].
    split; [symmetry; exact Hdrop | discriminate]. }
  assert (Hne : titleOf url <> []).
  { destruct Hshape as [-> | (_ & _ & _ & Hne)]; [discriminate | exact Hne]. }
  split; [exact Hne|]. split; [|split].
  - destruct Hshape as [-> | (part & Hin & -> & _)].
    + cbn. intros Hin. repeat (destruct Hin as [Hin|Hin]; [discriminate|]).
      exact Hin.
    + intro Hslash. apply dropExtension_incl in Hslash.
      apply (proj2 (dashesToSpaces_chars part)) in Hslash.
      destruct (splitOn_pieces 0x2F url) as [_ Hpieces].
      rewrite Forall_forall in Hpieces. now apply (Hpieces part Hin).
  - destruct Hshape as [-> | (part & Hin & -> & _)].
    + cbn. intros Hin. repeat (destruct Hin as [Hin|Hin]; [discriminate|]).
      exact Hin.
    + intro Hdash. apply dropExtension_incl in Hdash.
      now apply (proj1 (dashesToSpaces_chars part)) in Hdash.
  - intros toUpperCase toISOString inputData Hurl.
    unfold validateDocumentStep. cbn [Validated.title]. rewrite Hurl.
    destruct (titleOf url) as [|u rest]; [congruence|].
    exists u, rest. split; reflexivity.
Qed.


(** X13. The title of a document. A URL is a directory, empty or ending
    in a slash, and a last part without slash; the title is that last
    part with its dashes turned into spaces and its extension dropped (the
    last dot and what follows, when that is one or more word characters;
    otherwise nothing is dropped), or the fixed title when nothing is
    left. So a URL that is empty or ends in a slash, and one whose last
    part is an extension only, get the fixed title. The title is never
    empty and holds neither a slash nor a dash; the step capitalises its
    first code unit and keeps the rest. *)
Theorem title_comes_from_last_part (url : jsstring) :
  (exists directory part,
      url = directory ++ part /\
      ~ In 0x2F%N part /\
      (directory = [] \/ exists d, directory = d ++ [0x2F%N])) /\
  (forall directory part,
      url = directory ++ part ->
      ~ In 0x2F%N part ->
      directory = [] \/ (exists d, directory = d ++ [0x2F%N]) ->
      titleOf url
      = match dropExtension (dashesToSpaces part) with
        | [] => lit "Untitled Document"
        | u :: rest => u :: rest
        end) /\
  (forall stem ext,
      ext <> [] -> forallb isWord ext = true ->
      dropExtension (stem ++ 0x2E%N :: ext) = stem) /\
  (forall s,
      (forall stem ext,
          s = stem ++ 0x2E%N :: ext ->
          ext = [] \/ forallb isWord ext = false) ->
      dropExtension s = s) /\
  (url = [] \/ (exists d, url = d ++ [0x2F%N]) ->
   titleOf url = lit "Untitled Document") /\
  (forall directory ext,
      url = directory ++ 0x2E%N :: ext ->
      directory = [] \/ (exists d, directory = d ++ [0x2F%N]) ->
      ext <> [] -> forallb isWord ext = true ->
      titleOf url = lit "Untitled Document") /\
  titleOf url <> [] /\
  ~ In 0x2F%N (titleOf url) /\
  ~ In 0x2D%N (titleOf url) /\
  forall toUpperCase toISOString inputData,
    Fetched.url inputData = url ->
    exists u rest,
      titleOf url = u :: rest /\
      Validated.title (validateDocumentStep toUpperCase toISOString inputData)
      = toUpperCase [u] ++ rest.
Proof.
  assert (Hrule : forall directory part,
      url = directory ++ part ->
      ~ In 0x2F%N part ->
      directory = [] \/ (exists d, directory = d ++ [0x2F%N]) ->
      titleOf url
      = match dropExtension (dashesToSpaces part) with
        | [] => lit "Untitled Document"
        | u :: rest => u :: rest
        end).
  { intros directory part -> Hclean Hdir. unfold titleOf.
    rewrite (splitOn_last_part 0x2F directory part Hclean Hdir).
    cbn [option_map orElse].
    now destruct (dropExtension (dashesToSpaces part)). }
  split; [apply url_parts|]. split; [exact Hrule|].
  split; [apply dropExtension_drops|]. split; [apply dropExtension_keeps|].
  split; [|split; [|apply titleOf_shape]].
  - intros [->|(d & ->)]; [reflexivity|].
    rewrite (Hrule (d ++ [0x2F%N]) []);
      [reflexivity | now rewrite app_nil_r | intros [] | right; now exists d].
  - intros directory ext -> Hdir Hne Hword.
    assert (Hclean : ~ In 0x2F%N (0x2E%N :: ext)).
    { intros [Heq|Hin]; [discriminate|].
      rewrite forallb_forall in Hword. specialize (Hword _ Hin).
      discriminate Hword. }
    rewrite (Hrule directory (0x2E%N :: ext) eq_refl Hclean Hdir).
    change (dashesToSpaces (0x2E%N :: ext))
      with (0x2E%N :: dashesToSpaces ext).
    rewrite (dashesToSpaces_word ext Hword).
    pose proof (dropExtension_drops [] ext Hne Hword) as Hdrop.
    cbn [app] in Hdrop. now rewrite Hdrop.
Qed.

Lemma title_comes_from_last_part_witness :
  lit "https://example.com/docs/.pdf"
  = lit "https://example.com/docs/" ++ 0x2E%N :: lit "pdf" /\
  titleOf (lit "https://example.com/docs/.pdf") = lit "Untitled Document".
Proof.
  split; [reflexivity|].
  apply (proj1 (proj2 (proj2 (proj2 (proj2 (proj2
           (title_comes_from_last_part (lit "https://example.com/docs/.pdf")))))))
           (lit "https://example.com/docs/") (lit "pdf") eq_refl).
  - right. now exists (lit "https://example.com/docs").
  - discriminate.
  - reflexivity.
Defined.
